(** * Hybrid search core (BM25 + semantic + expansion + fusion)

    A shallow embedding of the Python sources under
    [src/search/] (preprocessing.py, bm25.py, semantic.py, expansion.py,
    fusion.py, hybrid.py), and the properties of the retrieval core
    established over it.

    Conventions of the embedding:
    - Python floats are exact rationals ([Q]); rounding, overflow and NaN
      are outside the model.  [np.log] is the real logarithm.
    - Python exceptions are values of [exn]; a call that may raise returns
      an [outcome].
    - A dict whose iteration order is observed is an insertion-ordered
      association list ([odict]); a dict used only for lookup is a [gmap].
    - External capabilities (tokenizer, lemmatizer, stopword list, regular
      expressions, embedding model, WordNet) are parameters: Section
      variables, or the fields of a record of functions. *)

From Stdlib Require Import QArith Qminmax Reals Lra Lia List Sorted Ascii String.
From stdpp Require Import base gmap strings list pretty.

Import ListNotations.

(** ** Python runtime: exceptions and results *)

Inductive exn : Type :=
| TypeError
| ZeroDivisionError
| AttributeError
| KeyError.

Inductive outcome (A : Type) : Type :=
| Ok (a : A)
| Raise (e : exn).

Arguments Ok {A} a.
Arguments Raise {A} e.

#[export] Instance outcome_ret : MRet outcome := fun A a => Ok a.
#[export] Instance outcome_bind : MBind outcome := fun A B k r =>
  match r with
  | Ok a => k a
  | Raise e => Raise e
  end.

#[export] Instance outcome_fmap : FMap outcome := fun A B f r =>
  match r with
  | Ok a => Ok (f a)
  | Raise e => Raise e
  end.

(** ** Score normalisation (fusion.py, class ScoreNormalizer) *)

Module ScoreNormalizer.

Local Open Scope Q_scope.

(** [np.min] and [np.max] of a non-empty array. *)
Definition np_min (x : Q) (rest : list Q) : Q := fold_left Qmin rest x.
Definition np_max (x : Q) (rest : list Q) : Q := fold_left Qmax rest x.

Definition min_max_normalize (scores : list Q) : list Q :=
  match scores with
  | [] => []
  | x :: rest =>
      let min_score := np_min x rest in
      let max_score := np_max x rest in
      if Qeq_bool max_score min_score then repeat 1 (length scores)
      else map (fun s => (s - min_score) / (max_score - min_score)) scores
  end.

(** [m] is the least (greatest) element of [l], up to rational equality. *)
Definition is_minimum (m : Q) (l : list Q) : Prop :=
  Exists (fun x => x == m) l /\ Forall (fun x => m <= x) l.
Definition is_maximum (m : Q) (l : list Q) : Prop :=
  Exists (fun x => x == m) l /\ Forall (fun x => x <= m) l.

Definition all_equal (l : list Q) : Prop :=
  forall x y, In x l -> In y l -> x == y.

End ScoreNormalizer.

(** ** Data model *)

Module Models.

Local Open Scope Q_scope.

(** An embedding vector ([np.ndarray] of floats). *)
Definition vector : Type := list Q.

(** Modelled from the spec: [src/models.py] (the dataclasses [Document],
    [Query] and [SearchResult]) is not part of the source tree.  The fields
    and their defaults follow the data model of the specification and the
    constructor calls in the sources. *)
Record Document : Type := mkDocument {
  id : string;
  title : string;
  content : string;
  tokens : option (list string);
  embedding : option vector;
  metadata : gmap string string
}.

(** Modelled from the spec: see [Document]. *)
Record Query : Type := mkQuery {
  text : string;
  original_text : string;
  k : nat;
  min_score : Q;
  filters : gmap string string;
  expanded_terms : list string
}.

(** Modelled from the spec: see [Document].  The component scores default
    to 0. *)
Record SearchResult : Type := mkSearchResult {
  document : Document;
  score : Q;
  bm25_score : Q;
  semantic_score : Q;
  expansion_score : Q
}.

(** [Document(id=..., content=...)] *)
Definition new_Document (i c : string) : Document :=
  {| id := i; title := ""; content := c; tokens := None;
     embedding := None; metadata := ∅ |}.

(** [Query(text=..., k=..., min_score=..., filters=...)] *)
Definition new_Query (t : string) (k0 : nat) (ms : Q)
    (fs : gmap string string) : Query :=
  {| text := t; original_text := t; k := k0; min_score := ms;
     filters := fs; expanded_terms := [] |}.

(** [SearchResult(document=..., score=...)] *)
Definition new_SearchResult (d : Document) (s : Q) : SearchResult :=
  {| document := d; score := s; bm25_score := 0; semantic_score := 0;
     expansion_score := 0 |}.

Definition set_score (r : SearchResult) (s : Q) : SearchResult :=
  {| document := document r; score := s; bm25_score := bm25_score r;
     semantic_score := semantic_score r; expansion_score := expansion_score r |}.

End Models.

(** ** Insertion-ordered dictionaries

    A Python [dict] iterates in insertion order, and assigning to a key
    that is present keeps its position. *)

Module ODict.

Section WithValue.

Context {V : Type}.

Definition odict : Type := list (string * V).

Fixpoint get (d : odict) (key : string) : option V :=
  match d with
  | [] => None
  | (k, v) :: rest => if String.eqb k key then Some v else get rest key
  end.

Fixpoint set (d : odict) (key : string) (v : V) : odict :=
  match d with
  | [] => [(key, v)]
  | (k, v0) :: rest =>
      if String.eqb k key then (k, v) :: rest else (k, v0) :: set rest key v
  end.

Definition keys (d : odict) : list string := map fst d.
Definition values (d : odict) : list V := map snd d.
Definition items (d : odict) : list (string * V) := d.

End WithValue.

Arguments odict V : clear implicits.

End ODict.

(** ** [list.sort(key=..., reverse=True)]

    Python's sort is stable, and stays stable under [reverse=True]: of two
    elements with equal keys, the one that came first stays first. *)

Section SortDescending.

Context {A : Type} (key : A -> Q).

Fixpoint insert_desc (x : A) (l : list A) : list A :=
  match l with
  | [] => [x]
  | y :: rest =>
      if Qle_bool (key y) (key x) then x :: y :: rest
      else y :: insert_desc x rest
  end.

Definition sort_desc (l : list A) : list A := foldr insert_desc [] l.

End SortDescending.

(** ** Result fusion (fusion.py, class ResultFusion) *)

Module ResultFusion.

Import Models.
Local Open Scope Q_scope.

(** The [hybrid] section of the configuration dictionary; an absent key is
    [None]. *)
Record HybridConfig : Type := mkHybridConfig {
  cfg_fusion_strategy : option string;
  cfg_normalize_scores : option bool;
  cfg_bm25_weight : option Q;
  cfg_semantic_weight : option Q;
  cfg_expansion_weight : option Q;
  cfg_k : option Q
}.

Definition empty_config : HybridConfig :=
  mkHybridConfig None None None None None None.

(** The instance dictionary written by [__init__].  [normalize_scores] is
    the instance attribute assigned on line 116; it has the same name as
    the method defined on line 128. *)
Record ResultFusion : Type := mkResultFusion {
  fusion_strategy : string;
  normalize_scores : option bool;
  bm25_weight : Q;
  semantic_weight : Q;
  expansion_weight : Q;
  k_rrf : Q
}.

Definition __init__ (hybrid_config : HybridConfig) : ResultFusion :=
  {| fusion_strategy := default "weighted"%string (cfg_fusion_strategy hybrid_config);
     normalize_scores := Some (default true (cfg_normalize_scores hybrid_config));
     bm25_weight := default (4 # 10) (cfg_bm25_weight hybrid_config);
     semantic_weight := default (6 # 10) (cfg_semantic_weight hybrid_config);
     expansion_weight := default (2 # 10) (cfg_expansion_weight hybrid_config);
     k_rrf := default 10 (cfg_k hybrid_config) |}.

(** The method [normalize_scores(self, results)] of the class (lines
    128-151).  The loop assigns [result.score] on the objects of the list
    it is given. *)
Definition normalize_scores_method (results : list SearchResult)
    : list SearchResult :=
  match results with
  | [] => results
  | _ =>
      let scores := map score results in
      let normalized_scores := ScoreNormalizer.min_max_normalize scores in
      map (fun '(result, norm_score) => set_score result norm_score)
          (combine results normalized_scores)
  end.

(** What the expression [self.normalize_scores] evaluates to. *)
Inductive attribute : Type :=
| BoolValue (b : bool)
| BoundMethod (f : list SearchResult -> list SearchResult).

(** Attribute lookup on an instance: the instance dictionary is searched
    before the class, and a plain function of the class does not override
    an instance entry. *)
Definition getattr_normalize_scores (self : ResultFusion) : attribute :=
  match normalize_scores self with
  | Some b => BoolValue b
  | None => BoundMethod normalize_scores_method
  end.

Definition truthy (a : attribute) : bool :=
  match a with
  | BoolValue b => b
  | BoundMethod _ => true
  end.

(** Calling a value: a [bool] is not callable. *)
Definition call (a : attribute) (results : list SearchResult)
    : outcome (list SearchResult) :=
  match a with
  | BoolValue _ => Raise TypeError
  | BoundMethod f => Ok (f results)
  end.

(** [sum(weights)] *)
Definition sum (ws : list Q) : Q := fold_left Qplus ws 0.

Definition normalize_weights (weights : list Q) : list Q :=
  let total_weight := sum weights in
  if Qle_bool total_weight 0 then weights
  else map (fun w => w / total_weight) weights.

(** Body of the inner loop of [_weighted_fusion] (lines 204-226). *)
Definition accumulate (weight : Q) (fused_results : ODict.odict SearchResult)
    (result : SearchResult) : ODict.odict SearchResult :=
  let doc_id := id (document result) in
  match ODict.get fused_results doc_id with
  | None =>
      ODict.set fused_results doc_id
        {| document := document result;
           score := score result * weight;
           bm25_score := bm25_score result;
           semantic_score := semantic_score result;
           expansion_score := expansion_score result |}
  | Some cur =>
      ODict.set fused_results doc_id
        {| document := document cur;
           score := score cur + score result * weight;
           bm25_score :=
             if Qle_bool (bm25_score result) 0 then bm25_score cur
             else bm25_score result;
           semantic_score :=
             if Qle_bool (semantic_score result) 0 then semantic_score cur
             else semantic_score result;
           expansion_score :=
             if Qle_bool (expansion_score result) 0 then expansion_score cur
             else expansion_score result |}
  end.

(** The outer loop of [_weighted_fusion] (lines 199-226). *)
Fixpoint weighted_loop (self : ResultFusion)
    (pairs : list (list SearchResult * Q))
    (fused_results : ODict.odict SearchResult)
    : outcome (ODict.odict SearchResult) :=
  match pairs with
  | [] => Ok fused_results
  | (results, weight) :: rest =>
      results' ←
        (if truthy (getattr_normalize_scores self)
         then call (getattr_normalize_scores self) results
         else Ok results);
      weighted_loop self rest (fold_left (accumulate weight) results' fused_results)
  end.

Definition _weighted_fusion (self : ResultFusion)
    (result_sets : list (list SearchResult)) : outcome (list SearchResult) :=
  let weights := [bm25_weight self; semantic_weight self; expansion_weight self] in
  let weights := firstn (length result_sets) weights in
  let weights := normalize_weights weights in
  fused_results ← weighted_loop self (combine result_sets weights) [];
  Ok (sort_desc score (ODict.values fused_results)).

(** State of the loops of [_reciprocal_rank_fusion]: the two dictionaries
    [rrf_scores] and [documents]. *)
Definition rrf_state : Type := (ODict.odict Q * ODict.odict Document)%type.

(** Body of the inner loop (lines 250-259), at 1-based [rank]. *)
Definition rrf_step (self : ResultFusion) (st : rrf_state) (rank : nat)
    (result : SearchResult) : outcome rrf_state :=
  let '(rrf_scores, documents) := st in
  let doc_id := id (document result) in
  let denominator := k_rrf self + inject_Z (Z.of_nat rank) in
  if Qeq_bool denominator 0 then Raise ZeroDivisionError
  else
    let rrf_score := 1 / denominator in
    match ODict.get rrf_scores doc_id with
    | None =>
        Ok (ODict.set rrf_scores doc_id rrf_score,
            ODict.set documents doc_id (document result))
    | Some total => Ok (ODict.set rrf_scores doc_id (total + rrf_score), documents)
    end.

(** [for rank, result in enumerate(results, start=rank)] *)
Fixpoint rrf_inner (self : ResultFusion) (results : list SearchResult)
    (rank : nat) (st : rrf_state) : outcome rrf_state :=
  match results with
  | [] => Ok st
  | result :: rest =>
      st' ← rrf_step self st rank result;
      rrf_inner self rest (S rank) st'
  end.

(** [for results in result_sets] *)
Fixpoint rrf_outer (self : ResultFusion)
    (result_sets : list (list SearchResult)) (st : rrf_state)
    : outcome rrf_state :=
  match result_sets with
  | [] => Ok st
  | results :: rest =>
      st' ← rrf_inner self results 1 st;
      rrf_outer self rest st'
  end.

(** Lines 262-268: one [SearchResult] per entry of [rrf_scores]. *)
Fixpoint rrf_results (documents : ODict.odict Document)
    (entries : list (string * Q)) : outcome (list SearchResult) :=
  match entries with
  | [] => Ok []
  | (doc_id, total) :: rest =>
      match ODict.get documents doc_id with
      | None => Raise KeyError
      | Some d =>
          fused_results ← rrf_results documents rest;
          Ok (new_SearchResult d total :: fused_results)
      end
  end.

Definition _reciprocal_rank_fusion (self : ResultFusion)
    (result_sets : list (list SearchResult)) : outcome (list SearchResult) :=
  st ← rrf_outer self result_sets ([], []);
  fused_results ← rrf_results (snd st) (ODict.items (fst st));
  Ok (sort_desc score fused_results).

Definition fuse (self : ResultFusion)
    (result_sets : list (list SearchResult)) : outcome (list SearchResult) :=
  match result_sets with
  | [] => Ok []
  | [results] => Ok results
  | _ =>
      if String.eqb (fusion_strategy self) "weighted" then
        _weighted_fusion self result_sets
      else if String.eqb (fusion_strategy self) "rrf" then
        _reciprocal_rank_fusion self result_sets
      else _weighted_fusion self result_sets
  end.

(** *** Reference quantities *)

(** The reciprocal-rank contributions of one list to document [doc_id],
    the first element of the list having rank [rank]. *)
Fixpoint rank_contribution (k : Q) (doc_id : string)
    (results : list SearchResult) (rank : nat) : Q :=
  match results with
  | [] => 0
  | result :: rest =>
      (if String.eqb (id (document result)) doc_id
       then 1 / (k + inject_Z (Z.of_nat rank)) else 0)
      + rank_contribution k doc_id rest (S rank)
  end.

(** Sum over all lists of the contributions [1 / (k + r)]. *)
Fixpoint rrf_total (k : Q) (doc_id : string)
    (result_sets : list (list SearchResult)) : Q :=
  match result_sets with
  | [] => 0
  | results :: rest =>
      rank_contribution k doc_id results 1 + rrf_total k doc_id rest
  end.

(** Two collections of lists rank the same documents at the same
    positions; the scores are unconstrained. *)
Definition same_ranks (a b : list (list SearchResult)) : Prop :=
  map (map document) a = map (map document) b.

(** A result with the same document and no score information. *)
Definition forget_scores (r : SearchResult) : SearchResult :=
  new_SearchResult (document r) 0.

(** The ranking of a fused list: its document ids, in order. *)
Definition ranking (results : list SearchResult) : list string :=
  map (fun r => id (document r)) results.

(** Invariant of the dictionary [fused_results]: every value is stored
    under the id of its document, and no key occurs twice. *)
Definition well_keyed (fused_results : ODict.odict SearchResult) : Prop :=
  NoDup (ODict.keys fused_results)
  /\ Forall (fun kv => id (document (snd kv)) = fst kv) fused_results.

(** Invariant of the dictionaries [rrf_scores] and [documents]: they have
    the same keys, without repetition, and every document is stored under
    its own id. *)
Definition rrf_inv (st : rrf_state) : Prop :=
  NoDup (ODict.keys (fst st))
  /\ ODict.keys (fst st) = ODict.keys (snd st)
  /\ Forall (fun kd => id (snd kd) = fst kd) (snd st).

(** The running total of [doc_id]; 0 while it has no entry. *)
Definition total_of (rrf_scores : ODict.odict Q) (doc_id : string) : Q :=
  default 0 (ODict.get rrf_scores doc_id).

(** Descending order of scores. *)
Definition sorted_desc (results : list SearchResult) : Prop :=
  StronglySorted (fun a b => score b <= score a) results.

(** [combine_scores] (lines 275-293). *)
Definition combine_scores (self : ResultFusion)
    (bm25 semantic expansion : Q) : Q :=
  bm25_weight self * bm25 + semantic_weight self * semantic
  + expansion_weight self * expansion.

(** *** Reference quantities for weighted fusion *)

(** The weights [_weighted_fusion] pairs with its lists (lines 188-194). *)
Definition weights_for (self : ResultFusion)
    (result_sets : list (list SearchResult)) : list Q :=
  normalize_weights
    (firstn (length result_sets)
       [bm25_weight self; semantic_weight self; expansion_weight self]).

(** The weighted scores one list contributes to document [doc_id]. *)
Fixpoint list_contribution (doc_id : string) (weight : Q)
    (results : list SearchResult) : Q :=
  match results with
  | [] => 0
  | result :: rest =>
      (if String.eqb (id (document result)) doc_id
       then score result * weight else 0)
      + list_contribution doc_id weight rest
  end.

(** Sum of the contributions of all weighted lists. *)
Fixpoint weighted_total (doc_id : string)
    (pairs : list (list SearchResult * Q)) : Q :=
  match pairs with
  | [] => 0
  | (results, weight) :: rest =>
      list_contribution doc_id weight results + weighted_total doc_id rest
  end.

(** The running score of [doc_id] in [fused_results]; 0 while it has no
    entry. *)
Definition score_of (fused_results : ODict.odict SearchResult)
    (doc_id : string) : Q :=
  match ODict.get fused_results doc_id with
  | Some r => score r
  | None => 0
  end.

(** Document [doc_id] occurs in one of the lists. *)
Definition occurs_in (doc_id : string)
    (result_sets : list (list SearchResult)) : Prop :=
  exists results result,
    In results result_sets /\ In result results
    /\ id (document result) = doc_id.

End ResultFusion.

(** ** Strings *)

Module Str.

(** [str.lower], on ASCII letters. *)
Definition lower_ascii (c : ascii) : ascii :=
  let n := nat_of_ascii c in
  if (65 <=? n)%nat && (n <=? 90)%nat then ascii_of_nat (n + 32) else c.

Fixpoint lower (s : string) : string :=
  match s with
  | EmptyString => EmptyString
  | String c rest => String (lower_ascii c) (lower rest)
  end.

Definition is_letter (c : ascii) : bool :=
  let n := nat_of_ascii c in
  ((65 <=? n)%nat && (n <=? 90)%nat) || ((97 <=? n)%nat && (n <=? 122)%nat).

Fixpoint all_letters (s : string) : bool :=
  match s with
  | EmptyString => true
  | String c rest => is_letter c && all_letters rest
  end.

(** [str.isalpha], on ASCII: non-empty and letters only. *)
Definition isalpha (s : string) : bool :=
  match s with
  | EmptyString => false
  | _ => all_letters s
  end.

(** [a in b] for two strings: [a] occurs in [b] as a substring. *)
Definition contains (b a : string) : bool :=
  match String.index 0 a b with
  | Some _ => true
  | None => false
  end.

(** [string.punctuation]: the 32 ASCII punctuation characters, in code
    order. *)
Definition punctuation : string :=
  string_of_list_ascii
    (map ascii_of_nat (seq 33 15 ++ seq 58 7 ++ seq 91 6 ++ seq 123 4)).

(** [' '.join(words)] *)
Fixpoint join (words : list string) : string :=
  match words with
  | [] => EmptyString
  | [w] => w
  | w :: rest => w ++ " " ++ join rest
  end.

(** [s.split(' ')] without empty pieces, a stand-in tokenizer for plain
    lower-case words. *)
Fixpoint split_words_aux (s : string) (cur : string) : list string :=
  match s with
  | EmptyString => if String.eqb cur "" then [] else [cur]
  | String c rest =>
      if Ascii.eqb c " "%char
      then (if String.eqb cur "" then [] else [cur]) ++ split_words_aux rest ""
      else split_words_aux rest (cur ++ String c EmptyString)
  end.

Definition split_words (s : string) : list string := split_words_aux s "".

End Str.

(** ** Text preprocessing (preprocessing.py) *)

Module Preprocessing.

(** The [preprocessing] section of the configuration dictionary. *)
Record PreprocessingConfig : Type := mkPreprocessingConfig {
  cfg_lowercase : option bool;
  cfg_remove_stopwords : option bool;
  cfg_remove_punctuation : option bool;
  cfg_lemmatize : option bool;
  cfg_min_word_length : option nat;
  cfg_max_word_length : option nat
}.

Definition empty_config : PreprocessingConfig :=
  mkPreprocessingConfig None None None None None None.

(** The attributes of a [TextPreprocessor] (and of a [QueryPreprocessor],
    which adds none).  [stop_words] is computed once, by [__init__]. *)
Record TextPreprocessor : Type := mkTextPreprocessor {
  lowercase : bool;
  remove_stopwords : bool;
  remove_punctuation : bool;
  lemmatize : bool;
  min_word_length : nat;
  max_word_length : nat;
  stop_words : gset string
}.

Definition set_remove_stopwords (self : TextPreprocessor) (b : bool)
    : TextPreprocessor :=
  {| lowercase := lowercase self;
     remove_stopwords := b;
     remove_punctuation := remove_punctuation self;
     lemmatize := lemmatize self;
     min_word_length := min_word_length self;
     max_word_length := max_word_length self;
     stop_words := stop_words self |}.

(** The linguistic resources and regular expressions the pipeline calls:
    NLTK's stopword list, tokenizer, lemmatizer and stemmer, and the four
    [re.sub] rewritings. *)
Record Nltk : Type := mkNltk {
  stopwords_english : list string;
  word_tokenize : string -> list string;
  wordnet_lemmatize : string -> string;
  porter_stem : string -> string;
  _remove_html : string -> string;
  _remove_urls : string -> string;
  _remove_emails : string -> string;
  sub_punctuation : string -> string
}.

Section Pipeline.

Context (nltk : Nltk).

Definition __init__ (config : PreprocessingConfig) : TextPreprocessor :=
  let remove := default true (cfg_remove_stopwords config) in
  {| lowercase := default true (cfg_lowercase config);
     remove_stopwords := remove;
     remove_punctuation := default true (cfg_remove_punctuation config);
     lemmatize := default true (cfg_lemmatize config);
     min_word_length := default 2%nat (cfg_min_word_length config);
     max_word_length := default 50%nat (cfg_max_word_length config);
     stop_words :=
       if remove then list_to_set (stopwords_english nltk) else ∅ |}.

(** One round of the loop of [_filter_tokens]: [None] for [continue],
    [Some t] for [filtered.append(t)]. *)
Definition filter_token (self : TextPreprocessor) (token : string)
    : option string :=
  if Str.contains Str.punctuation token then None
  else if bool_decide (token ∈ stop_words self) then None
  else if (String.length token <? min_word_length self)%nat
          || (max_word_length self <? String.length token)%nat then None
  else if negb (Str.isalpha token) then None
  else Some (if lemmatize self then wordnet_lemmatize nltk token
             else porter_stem nltk token).

Definition _filter_tokens (self : TextPreprocessor) (tokens : list string)
    : list string :=
  omap (filter_token self) tokens.

(** [TextPreprocessor.preprocess] *)
Definition preprocess (self : TextPreprocessor) (text : string)
    : list string :=
  if String.eqb text "" then []
  else
    let text := _remove_html nltk text in
    let text := if lowercase self then Str.lower text else text in
    let text := _remove_urls nltk text in
    let text := _remove_emails nltk text in
    let text :=
      if remove_punctuation self then sub_punctuation nltk text else text in
    let tokens := word_tokenize nltk text in
    _filter_tokens self tokens.

(** [QueryPreprocessor.preprocess]: the flag [remove_stopwords] is cleared
    around the call of the inherited [preprocess] and then restored.  The
    result is the token list together with the preprocessor as it is left
    behind. *)
Definition query_preprocess (self : TextPreprocessor) (text : string)
    : list string * TextPreprocessor :=
  if String.eqb text "" then ([], self)
  else
    let original_remove_stopwords := remove_stopwords self in
    let self := set_remove_stopwords self false in
    let tokens := preprocess self text in
    let self := set_remove_stopwords self original_remove_stopwords in
    (tokens, self).

(** The pipeline as it would run with an empty stopword set: what a mode
    that drops no stopwords keeps. *)
Definition preprocess_keeping_stopwords (self : TextPreprocessor)
    (text : string) : list string :=
  preprocess
    {| lowercase := lowercase self;
       remove_stopwords := false;
       remove_punctuation := remove_punctuation self;
       lemmatize := lemmatize self;
       min_word_length := min_word_length self;
       max_word_length := max_word_length self;
       stop_words := ∅ |}
    text.

End Pipeline.

End Preprocessing.

(** ** Lexical index (bm25.py) *)

Module BM25.

Import Models.

Record BM25Indexer : Type := mkBM25Indexer {
  documents : gmap string Document;
  tokenized_corpus : list (list string);
  doc_ids : list string;
  doc_lengths : gmap string nat;
  avg_doc_length : Q
}.

(** The arguments a [BM25Okapi] scorer of rank_bm25 is built from. *)
Record BM25Okapi : Type := mkBM25Okapi {
  corpus : list (list string);
  model_k1 : Q;
  model_b : Q;
  model_epsilon : Q
}.

Record BM25Searcher : Type := mkBM25Searcher {
  k1 : Q;
  b : Q;
  epsilon : Q;
  indexer : BM25Indexer;
  bm25_model : option BM25Okapi
}.

Definition new_indexer : BM25Indexer :=
  {| documents := ∅; tokenized_corpus := []; doc_ids := [];
     doc_lengths := ∅; avg_doc_length := 0 |}.

(** [BM25Searcher.__init__], given the three parameters read from the
    configuration (1.5, 0.75 and 0.25 when absent). *)
Definition new_searcher (k1 b epsilon : Q) : BM25Searcher :=
  {| k1 := k1; b := b; epsilon := epsilon;
     indexer := new_indexer; bm25_model := None |}.

Definition set_tokens (doc : Document) (toks : list string) : Document :=
  {| id := id doc; title := title doc; content := content doc;
     tokens := Some toks; embedding := embedding doc;
     metadata := metadata doc |}.

Section Indexing.

(** [self.preprocessor.preprocess] *)
Context (preprocess : string -> list string).

Definition _update_avg_length (self : BM25Indexer) : BM25Indexer :=
  if (size (doc_lengths self) =? 0)%nat then self
  else
    {| documents := documents self;
       tokenized_corpus := tokenized_corpus self;
       doc_ids := doc_ids self;
       doc_lengths := doc_lengths self;
       avg_doc_length :=
         (inject_Z (Z.of_nat
            (map_fold (fun _ n acc => (n + acc)%nat) 0%nat (doc_lengths self)))
          / inject_Z (Z.of_nat (size (doc_lengths self))))%Q |}.

Definition add_document (self : BM25Indexer) (doc : Document) : BM25Indexer :=
  match documents self !! id doc with
  | Some _ => self
  | None =>
      let toks := preprocess (content doc) in
      let doc := set_tokens doc toks in
      _update_avg_length
        {| documents := <[id doc := doc]> (documents self);
           tokenized_corpus := tokenized_corpus self ++ [toks];
           doc_ids := doc_ids self ++ [id doc];
           doc_lengths := <[id doc := length toks]> (doc_lengths self);
           avg_doc_length := avg_doc_length self |}
  end.

Definition add_documents (self : BM25Indexer) (docs : list Document)
    : BM25Indexer :=
  fold_left add_document docs self.

Definition document_count (self : BM25Indexer) : nat := size (documents self).

Definition index_documents (self : BM25Searcher) (docs : list Document)
    : BM25Searcher :=
  let idx := add_documents (indexer self) docs in
  {| k1 := k1 self; b := b self; epsilon := epsilon self;
     indexer := idx;
     bm25_model :=
       match tokenized_corpus idx with
       | [] => bm25_model self
       | _ => Some (mkBM25Okapi (tokenized_corpus idx)
                      (k1 self) (b self) (epsilon self))
       end |}.

End Indexing.

(** [term in doc_tokens] *)
Definition mentions (term : string) (doc_tokens : list string) : bool :=
  existsb (String.eqb term) doc_tokens.

(** The number of token lists of a corpus that contain [term]. *)
Definition containing (term : string) (docs : list (list string)) : nat :=
  length (filter (fun doc_tokens => mentions term doc_tokens = true) docs).

Definition get_document_frequency (self : BM25Searcher) (term : string) : nat :=
  match bm25_model self with
  | None => 0
  | Some _ =>
      let term := Str.lower term in
      fold_left (fun count doc_tokens =>
                   if mentions term doc_tokens then S count else count)
        (tokenized_corpus (indexer self)) 0%nat
  end.

(** [np.log((N - df + 0.5) / (df + 0.5))] *)
Definition idf_formula (N df : nat) : R :=
  ln ((INR N - INR df + 0.5) / (INR df + 0.5))%R.

Definition get_idf (self : BM25Searcher) (term : string) : R :=
  match bm25_model self with
  | None => 0%R
  | Some _ =>
      let df := get_document_frequency self term in
      let N := document_count (indexer self) in
      if (df =? 0)%nat then 0%R else idf_formula N df
  end.

(** One corpus entry per stored document. *)
Definition aligned (self : BM25Indexer) : Prop :=
  size (documents self) = length (tokenized_corpus self).

(** The searchers that indexing from scratch produces. *)
Inductive indexed (preprocess : string -> list string) : BM25Searcher -> Prop :=
| indexed_new (k1 b epsilon : Q) :
    indexed preprocess (new_searcher k1 b epsilon)
| indexed_more (self : BM25Searcher) (docs : list Document) :
    indexed preprocess self ->
    indexed preprocess (index_documents preprocess self docs).

(** The number of tokens of a corpus. *)
Definition total_tokens (docs : list (list string)) : nat :=
  foldr (fun doc_tokens acc => (length doc_tokens + acc)%nat) 0%nat docs.

(** The state [add_document] maintains: the two lists run in parallel over
    distinct ids, and the two dictionaries have an entry for each id: the
    document with its cached tokens, and the number of these tokens. *)
Record arrays_ok (self : BM25Indexer) : Prop := mk_arrays_ok {
  ok_parallel : length (doc_ids self) = length (tokenized_corpus self);
  ok_distinct : NoDup (doc_ids self);
  ok_stored : forall doc_id,
    doc_id ∈ doc_ids self <-> is_Some (documents self !! doc_id);
  ok_measured : forall doc_id,
    is_Some (doc_lengths self !! doc_id) <-> is_Some (documents self !! doc_id);
  ok_entries : forall (i : nat) (doc_id : string) (toks : list string),
    doc_ids self !! i = Some doc_id ->
    tokenized_corpus self !! i = Some toks ->
    doc_lengths self !! doc_id = Some (length toks)
    /\ exists doc,
         documents self !! doc_id = Some doc
         /\ id doc = doc_id /\ tokens doc = Some toks;
  ok_size : size (doc_lengths self) = length (tokenized_corpus self);
  ok_total :
    map_fold (fun _ n acc => (n + acc)%nat) 0%nat (doc_lengths self)
    = total_tokens (tokenized_corpus self)
}.

(** The average document length is the number of tokens of the corpus
    divided by the number of documents. *)
Definition average_ok (self : BM25Indexer) : Prop :=
  tokenized_corpus self <> [] ->
  avg_doc_length self
  = (inject_Z (Z.of_nat (total_tokens (tokenized_corpus self)))
     / inject_Z (Z.of_nat (length (tokenized_corpus self))))%Q.

Definition indexer_ok (self : BM25Indexer) : Prop :=
  arrays_ok self /\ average_ok self.

(** The scorer of a searcher is the one built from its corpus and
    parameters. *)
Definition model_current (self : BM25Searcher) : Prop :=
  bm25_model self
  = match tokenized_corpus (indexer self) with
    | [] => None
    | _ => Some (mkBM25Okapi (tokenized_corpus (indexer self))
                   (k1 self) (b self) (epsilon self))
    end.

Section Searching.

(** [self.preprocessor.preprocess]; [BM25Okapi.get_scores] of rank_bm25;
    and [results.sort(reverse=True)], whose order is the one the class
    [SearchResult] of [src/models.py] defines. *)
Context (preprocess : string -> list string)
        (get_scores : BM25Okapi -> list string -> list Q)
        (sort_reverse : list SearchResult -> list SearchResult).

(** The body of the loop of lines 154-163. *)
Definition hit (self : BM25Searcher) (query : Query) (entry : string * Q)
    : option SearchResult :=
  let '(doc_id, s) := entry in
  if Qle_bool s (min_score query) then None
  else
    match documents (indexer self) !! doc_id with
    | Some doc =>
        Some {| document := doc; score := s; bm25_score := s;
                semantic_score := 0; expansion_score := 0 |}
    | None => None
    end.

(** [BM25Searcher.search] *)
Definition search (self : BM25Searcher) (query : Query) : list SearchResult :=
  match bm25_model self with
  | None => []
  | Some model =>
      match preprocess (text query) with
      | [] => []
      | query_tokens =>
          let scores := get_scores model query_tokens in
          let results :=
            omap (hit self query) (combine (doc_ids (indexer self)) scores) in
          firstn (k query) (sort_reverse results)
      end
  end.

End Searching.

End BM25.

(** ** Vector index (semantic.py) *)

Module Semantic.

Import Models.

Record EmbeddingGenerator : Type := mkEmbeddingGenerator {
  batch_size : nat;
  embedding_dim : nat;
  embedding_cache : gmap string vector;
  cache_enabled : bool
}.

Record VectorIndex : Type := mkVectorIndex {
  index_type : string;
  index : list vector;         (* the rows held by the FAISS index *)
  doc_ids : list string;
  is_trained : bool
}.

Record SemanticSearcher : Type := mkSemanticSearcher {
  embedding_generator : EmbeddingGenerator;
  vector_index : VectorIndex;
  documents : gmap string Document
}.

Definition set_cache (self : EmbeddingGenerator) (c : gmap string vector)
    : EmbeddingGenerator :=
  {| batch_size := batch_size self; embedding_dim := embedding_dim self;
     embedding_cache := c; cache_enabled := cache_enabled self |}.

Definition set_embedding (doc : Document) (e : vector) : Document :=
  {| id := id doc; title := title doc; content := content doc;
     tokens := tokens doc; embedding := Some e; metadata := metadata doc |}.

(** [EmbeddingGenerator.__init__] and [SemanticSearcher.__init__] for a
    model of dimension [dim]. *)
Definition new_generator (dim : nat) (enabled : bool) : EmbeddingGenerator :=
  {| batch_size := 32; embedding_dim := dim; embedding_cache := ∅;
     cache_enabled := enabled |}.

Definition new_searcher (dim : nat) (enabled : bool) (type : string)
    : SemanticSearcher :=
  {| embedding_generator := new_generator dim enabled;
     vector_index :=
       {| index_type := type; index := []; doc_ids := []; is_trained := false |};
     documents := ∅ |}.

Section WithModel.

(** The sentence-transformer: [model.encode] of one text.  [model.encode]
    of a list of texts encodes each of them. *)
Context (model_encode : string -> vector).

(** A cache hit, as the conditions on lines 48 and 78 test it. *)
Definition cached (self : EmbeddingGenerator) (text : string) : option vector :=
  if cache_enabled self then embedding_cache self !! text else None.

(** [encode]: the embedding, the generator afterwards, and the texts sent
    to the model. *)
Definition encode (self : EmbeddingGenerator) (text : string)
    : vector * EmbeddingGenerator * list string :=
  match cached self text with
  | Some e => (e, self, [])
  | None =>
      let e := model_encode text in
      (e,
       if cache_enabled self
       then set_cache self (<[text := e]> (embedding_cache self))
       else self,
       [text])
  end.

(** The first loop of [encode_batch] (lines 77-82), from index [i] on:
    [cached_embeddings], [uncached_texts] and [uncached_indices]. *)
Fixpoint scan (self : EmbeddingGenerator) (texts : list string) (i : nat)
    : list (nat * vector) * list string * list nat :=
  match texts with
  | [] => ([], [], [])
  | text :: rest =>
      let '(cached_embeddings, uncached_texts, uncached_indices) :=
        scan self rest (S i) in
      match cached self text with
      | Some e => ((i, e) :: cached_embeddings, uncached_texts, uncached_indices)
      | None => (cached_embeddings, text :: uncached_texts, i :: uncached_indices)
      end
  end.

(** [for i, emb in pairs: embeddings[i] = emb] *)
Definition assign (pairs : list (nat * vector)) (embeddings : list vector)
    : list vector :=
  fold_left (fun acc p => <[fst p := snd p]> acc) pairs embeddings.

(** [for text, embedding in pairs: cache[text] = embedding] *)
Definition store (pairs : list (string * vector)) (c : gmap string vector)
    : gmap string vector :=
  fold_left (fun acc p => <[fst p := snd p]> acc) pairs c.

(** [encode_batch]: the array of embeddings, the generator afterwards, and
    the batches sent to the model (none, or the one batch of the uncached
    texts). *)
Definition encode_batch (self : EmbeddingGenerator) (texts : list string)
    : list vector * EmbeddingGenerator * list (list string) :=
  let '(cached_embeddings, uncached_texts, uncached_indices) :=
    scan self texts 0 in
  let '(new_embeddings, self', calls) :=
    match uncached_texts with
    | [] => ([], self, [])
    | _ =>
        let new_embeddings := map model_encode uncached_texts in
        (new_embeddings,
         if cache_enabled self
         then set_cache self
                (store (combine uncached_texts new_embeddings)
                   (embedding_cache self))
         else self,
         [uncached_texts])
    end in
  let embeddings :=
    replicate (length texts) (replicate (embedding_dim self) 0%Q) in
  let embeddings := assign cached_embeddings embeddings in
  let embeddings := assign (combine uncached_indices new_embeddings) embeddings in
  (embeddings, self', calls).

(** [VectorIndex.add_vectors] *)
Definition add_vectors (self : VectorIndex) (vectors : list vector)
    (ids : list string) : VectorIndex :=
  {| index_type := index_type self;
     index := index self ++ vectors;
     doc_ids := doc_ids self ++ ids;
     is_trained :=
       if negb (is_trained self) && String.eqb (index_type self) "IndexIVFFlat"
       then true else is_trained self |}.

(** [SemanticSearcher.index_documents] *)
Definition index_documents (self : SemanticSearcher) (docs : list Document)
    : SemanticSearcher :=
  match docs with
  | [] => self
  | _ =>
      let texts := map content docs in
      let '(embeddings, generator, _) :=
        encode_batch (embedding_generator self) texts in
      let ids := map id docs in
      {| embedding_generator := generator;
         vector_index := add_vectors (vector_index self) embeddings ids;
         documents :=
           fold_left (fun acc p => <[id (fst p) := set_embedding (fst p) (snd p)]> acc)
             (combine docs embeddings) (documents self) |}
  end.

(** The embedding the generator stands for at [text]: the cached one on a
    hit, the model's otherwise. *)
Definition embedding_of (self : EmbeddingGenerator) (text : string) : vector :=
  match cached self text with
  | Some e => e
  | None => model_encode text
  end.

(** The texts of a batch that are not in the cache, in input order. *)
Definition misses (self : EmbeddingGenerator) (texts : list string)
    : list string :=
  List.filter
    (fun text => match embedding_cache self !! text with
                 | Some _ => false
                 | None => true
                 end)
    texts.

(** The generators that [encode] and [encode_batch] produce from a new
    one: with the cache switched off nothing is ever stored. *)
Definition cache_wf (self : EmbeddingGenerator) : Prop :=
  cache_enabled self = false -> embedding_cache self = ∅.

(** Every cached embedding is the one the model computes for its text. *)
Definition cache_consistent (self : EmbeddingGenerator) : Prop :=
  forall (text : string) (e : vector),
    embedding_cache self !! text = Some e -> e = model_encode text.

End WithModel.

(** What [SemanticSearcher.search] ends in: the result list, or one of
    the two exceptions its loop can raise. *)
Inductive search_outcome : Type :=
| Found (results : list SearchResult)
| IndexError
| DivisionByZero.

(** [l[idx]] for a Python list: negative indexes count from the end. *)
Definition py_index {A : Type} (l : list A) (idx : Z) : option A :=
  if (0 <=? idx)%Z then l !! Z.to_nat idx
  else if (- Z.of_nat (length l) <=? idx)%Z
       then l !! Z.to_nat (Z.of_nat (length l) + idx)
       else None.

Section SemanticSearch.

(** The sentence-transformer; [index.search] of FAISS, which returns the
    (distance, row) pairs of the nearest rows, row [-1] standing for a
    missing neighbour; and [results.sort(reverse=True)], whose order is
    the one the class [SearchResult] of [src/models.py] defines. *)
Context (model_encode : string -> vector)
        (faiss_search : VectorIndex -> vector -> nat -> list (Q * Z))
        (sort_reverse : list SearchResult -> list SearchResult).

(** [VectorIndex.search] *)
Definition vector_search (self : VectorIndex) (query_vector : vector)
    (k : nat) : list (Q * Z) :=
  match doc_ids self with
  | [] => []
  | _ => faiss_search self query_vector k
  end.

(** The loop of lines 304-322 over the (distance, row) pairs. *)
Fixpoint collect (self : SemanticSearcher) (query : Query)
    (hits : list (Q * Z)) : search_outcome :=
  match hits with
  | [] => Found []
  | (distance, idx) :: rest =>
      if (idx =? -1)%Z then collect self query rest
      else
        match py_index (doc_ids (vector_index self)) idx with
        | None => IndexError
        | Some doc_id =>
            match documents self !! doc_id with
            | None => collect self query rest
            | Some doc =>
                if Qeq_bool (1 + distance) 0 then DivisionByZero
                else
                  let similarity := (1 / (1 + distance))%Q in
                  if Qle_bool (min_score query) similarity then
                    match collect self query rest with
                    | Found results =>
                        Found ({| document := doc; score := similarity;
                                  bm25_score := 0;
                                  semantic_score := similarity;
                                  expansion_score := 0 |} :: results)
                    | raised => raised
                    end
                  else collect self query rest
            end
        end
  end.

(** [SemanticSearcher.search]: the outcome, the searcher afterwards (the
    query embedding may have been cached) and the texts sent to the
    model. *)
Definition search (self : SemanticSearcher) (query : Query)
    : search_outcome * SemanticSearcher * list string :=
  match doc_ids (vector_index self) with
  | [] => (Found [], self, [])
  | _ =>
      let '(query_embedding, generator, calls) :=
        encode model_encode (embedding_generator self) (text query) in
      let k := Nat.min (k query) (length (doc_ids (vector_index self))) in
      let hits := vector_search (vector_index self) query_embedding k in
      (match collect self query hits with
       | Found results => Found (sort_reverse results)
       | raised => raised
       end,
       {| embedding_generator := generator;
          vector_index := vector_index self;
          documents := documents self |},
       calls)
  end.

End SemanticSearch.

(** Result [r] is the one the loop of [search] builds from the neighbour
    [hit]: the row is not [-1], the document stored under the id at that
    row is the document of [r], and both [score] and [semantic_score] are
    [1 / (1 + distance)]. *)
Definition built_from (self : SemanticSearcher) (r : SearchResult)
    (hit : Q * Z) : Prop :=
  snd hit <> (-1)%Z
  /\ (exists doc_id,
        py_index (doc_ids (vector_index self)) (snd hit) = Some doc_id
        /\ documents self !! doc_id = Some (document r))
  /\ score r = (1 / (1 + fst hit))%Q
  /\ semantic_score r = score r
  /\ bm25_score r = 0%Q /\ expansion_score r = 0%Q.

End Semantic.

(** ** Query expansion (expansion.py) *)

Module Expansion.

Import Models.

Definition set_text (query : Query) (t : string) : Query :=
  {| text := t; original_text := original_text query; k := k query;
     min_score := min_score query; filters := filters query;
     expanded_terms := expanded_terms query |}.

Definition set_expansion (query : Query) (t : string) (terms : list string)
    : Query :=
  {| text := t; original_text := original_text query; k := k query;
     min_score := min_score query; filters := filters query;
     expanded_terms := terms |}.

(** [term.lower() not in [t.lower() for t in terms]] *)
Definition is_new (term : string) (terms : list string) : bool :=
  negb (existsb (String.eqb (Str.lower term)) (map Str.lower terms)).

Section Synonyms.

(** [self.preprocessor.preprocess] and [self.get_synonyms] (WordNet). *)
Context (preprocess : string -> list string)
        (get_synonyms : string -> list string)
        (max_synonyms : nat).

(** The inner loop of [SynonymExpander.expand] (lines 58-63); the [break]
    leaves this loop only. *)
Fixpoint add_synonyms (toks expanded_terms synonyms : list string)
    : list string :=
  match synonyms with
  | [] => expanded_terms
  | synonym :: rest =>
      if is_new synonym (toks ++ expanded_terms) then
        let expanded_terms := expanded_terms ++ [synonym] in
        if (max_synonyms * length toks <=? length expanded_terms)%nat
        then expanded_terms
        else add_synonyms toks expanded_terms rest
      else add_synonyms toks expanded_terms rest
  end.

(** [SynonymExpander.expand]; the query object is updated in place and
    returned. *)
Definition synonym_expand (query : Query) : outcome Query :=
  let toks := preprocess (text query) in
  let expanded_terms :=
    fold_left (fun acc token => add_synonyms toks acc (get_synonyms token))
      toks [] in
  match expanded_terms with
  | [] => Ok query
  | _ =>
      Ok (set_expansion query
            (text query ++ " " ++ Str.join expanded_terms) expanded_terms)
  end.

End Synonyms.

(** The attributes [EmbeddingExpander.__init__] and [set_vocabulary]
    assign; there is no [preprocessor] among them. *)
Record EmbeddingExpander : Type := mkEmbeddingExpander {
  max_related : nat;
  similarity_threshold : Q;
  vocabulary : list string;
  vocab_embeddings : option (list vector)
}.

(** [EmbeddingExpander.expand]: past the guard of line 197, line 201 reads
    [self.preprocessor]. *)
Definition embedding_expand (self : EmbeddingExpander) (query : Query)
    : outcome Query :=
  match vocab_embeddings self, vocabulary self with
  | None, _ | _, [] => Ok query
  | Some _, _ :: _ => Raise AttributeError
  end.

(** [QueryExpander]: the flag [enabled] and the [expand] methods of the
    configured strategies.  Each strategy updates the query object it is
    given and returns it. *)
Record QueryExpander : Type := mkQueryExpander {
  enabled : bool;
  expanders : list (Query -> outcome Query)
}.

Section Aggregator.

(** [list(set(terms))]: the distinct terms, in the iteration order of the
    set. *)
Context (list_of_set : list string -> list string).

(** The loop of [QueryExpander.expand] (lines 319-324). *)
Fixpoint run_expanders (original_text : string)
    (strategies : list (Query -> outcome Query)) (query : Query)
    (all_expanded_terms : list string) : outcome (Query * list string) :=
  match strategies with
  | [] => Ok (query, all_expanded_terms)
  | expander :: rest =>
      expanded_query ← expander query;
      run_expanders original_text rest
        (set_text expanded_query original_text)
        (all_expanded_terms ++ expanded_terms expanded_query)
  end.

Definition expand (self : QueryExpander) (query : Query) : outcome Query :=
  if negb (enabled self) then Ok query
  else
    let original_text := text query in
    st ← run_expanders original_text (expanders self) query [];
    match snd st with
    | [] => Ok (fst st)
    | all_expanded_terms =>
        let unique_expanded := list_of_set all_expanded_terms in
        Ok (set_expansion (fst st)
              (original_text ++ " " ++ Str.join unique_expanded)
              unique_expanded)
    end.

End Aggregator.

(** [EmbeddingExpander.set_vocabulary]: the vocabulary is stored, and
    embedded through the generator when it is not empty.  The result is
    the expander and the generator afterwards. *)
Definition set_vocabulary (model_encode : string -> vector)
    (self : EmbeddingExpander) (generator : Semantic.EmbeddingGenerator)
    (vocab : list string) : EmbeddingExpander * Semantic.EmbeddingGenerator :=
  match vocab with
  | [] =>
      ({| max_related := max_related self;
          similarity_threshold := similarity_threshold self;
          vocabulary := vocab;
          vocab_embeddings := vocab_embeddings self |}, generator)
  | _ =>
      let '(embeddings, generator', _) :=
        Semantic.encode_batch model_encode generator vocab in
      ({| max_related := max_related self;
          similarity_threshold := similarity_threshold self;
          vocabulary := vocab;
          vocab_embeddings := Some embeddings |}, generator')
  end.

(** [EmbeddingExpander.__init__] *)
Definition new_embedding_expander (related : nat) (threshold : Q)
    : EmbeddingExpander :=
  {| max_related := related; similarity_threshold := threshold;
     vocabulary := []; vocab_embeddings := None |}.

End Expansion.

(** ** Hybrid orchestrator (hybrid.py) *)

Module Hybrid.

Import Models.

(** What a call of [search] does besides returning: log records, and
    calls of the two engines and of the fusion. *)
Inductive event : Type :=
| LogWarning (msg : string)
| LogDebug (msg : string)
| LogInfo (msg : string)
| BM25Search (query : Query)
| SemanticSearch (query : Query)
| Fuse (result_sets : list (list SearchResult)).

Record HybridSearch : Type := mkHybridSearch {
  query_expander : Expansion.QueryExpander;
  fusion : ResultFusion.ResultFusion;
  is_indexed : bool
}.

(** [HybridSearch.__init__] leaves the engine unindexed; [index_documents]
    and [load_index] are the two methods that set [is_indexed]. *)
Definition __init__ (expander : Expansion.QueryExpander)
    (fusion : ResultFusion.ResultFusion) : HybridSearch :=
  {| query_expander := expander; fusion := fusion; is_indexed := false |}.

Definition set_indexed (self : HybridSearch) : HybridSearch :=
  {| query_expander := query_expander self; fusion := fusion self;
     is_indexed := true |}.

(** The inner loop of [_apply_filters]: every filter key is in the
    metadata, with an equal value. *)
Definition matches (doc : Document) (fs : gmap string string) : bool :=
  forallb (fun kv => bool_decide (metadata doc !! fst kv = Some (snd kv)))
    (map_to_list fs).

Definition _apply_filters (results : list SearchResult)
    (fs : gmap string string) : list SearchResult :=
  List.filter (fun result => matches (document result) fs) results.

Section Search.

(** [list(set(...))] of the expander, and the [search] methods of
    [self.bm25_searcher] and [self.semantic_searcher]. *)
Context (list_of_set : list string -> list string)
        (bm25_search semantic_search : Query -> list SearchResult).

Definition search (self : HybridSearch) (query_text : string) (k : nat)
    (min_score : Q) (filters : option (gmap string string))
    : outcome (list SearchResult) * list event :=
  if negb (is_indexed self) then
    (Ok [], [LogWarning "Search attempted before indexing"])
  else
    let fs := default ∅ filters in
    let query := new_Query query_text k min_score fs in
    match Expansion.expand list_of_set (query_expander self) query with
    | Raise e => (Raise e, [])
    | Ok query =>
        let bm25_results := bm25_search query in
        let semantic_results := semantic_search query in
        let events :=
          [BM25Search query;
           LogDebug ("BM25 found " ++ pretty (length bm25_results) ++ " results");
           SemanticSearch query;
           LogDebug ("Semantic found " ++ pretty (length semantic_results)
                     ++ " results")] in
        let result_sets := [bm25_results; semantic_results] in
        let '(result_sets, events) :=
          match expanded_terms query with
          | [] => (result_sets, events)
          | _ =>
              let expanded_query := new_Query (text query) k min_score fs in
              let expanded_results := bm25_search expanded_query in
              (result_sets ++ [expanded_results],
               events ++
               [BM25Search expanded_query;
                LogDebug ("Expanded query found "
                          ++ pretty (length expanded_results) ++ " results")])
          end in
        let events := events ++ [Fuse result_sets] in
        match ResultFusion.fuse (fusion self) result_sets with
        | Raise e => (Raise e, events)
        | Ok fused_results =>
            let fused_results :=
              if bool_decide (fs = ∅) then fused_results
              else _apply_filters fused_results fs in
            let fused_results := firstn k fused_results in
            (Ok fused_results,
             events ++
             [LogInfo ("Search returned " ++ pretty (length fused_results)
                       ++ " results")])
        end
    end.

End Search.

(** The query texts handed to the lexical index, in call order. *)
Definition bm25_inputs (events : list event) : list string :=
  omap (fun e => match e with
                 | BM25Search query => Some (text query)
                 | _ => None
                 end) events.

End Hybrid.

(** ** Fixtures: the sample data of tests/test_fusion.py *)

Module Fixtures.

Import Models.
Local Open Scope Q_scope.

Definition doc1 : Document := new_Document "1" "Content 1".
Definition doc2 : Document := new_Document "2" "Content 2".
Definition doc3 : Document := new_Document "3" "Content 3".

Definition results1 : list SearchResult :=
  [new_SearchResult doc1 (9 # 10); new_SearchResult doc2 (7 # 10)].
Definition results2 : list SearchResult :=
  [new_SearchResult doc2 (8 # 10); new_SearchResult doc3 (6 # 10)].

Definition sample_results : list (list SearchResult) := [results1; results2].

(** The same rankings with other scores. *)
Definition rescored_results : list (list SearchResult) :=
  [[new_SearchResult doc1 100; new_SearchResult doc2 1];
   [new_SearchResult doc2 3; new_SearchResult doc3 2]].

(** Lists in which a document occurs twice within one list and again in
    the other. *)
Definition repeated_results : list (list SearchResult) :=
  [[new_SearchResult doc1 (9 # 10); new_SearchResult doc1 (5 # 10);
    new_SearchResult doc2 (7 # 10)];
   [new_SearchResult doc2 (8 # 10); new_SearchResult doc1 (6 # 10)]].

(** The configuration of the test fixture, and variants of it. *)
Definition test_config : ResultFusion.HybridConfig :=
  ResultFusion.mkHybridConfig (Some "weighted"%string) (Some true)
    (Some (4 # 10)) (Some (6 # 10)) (Some (2 # 10)) (Some 10).
Definition rrf_config : ResultFusion.HybridConfig :=
  ResultFusion.mkHybridConfig (Some "rrf"%string) (Some true)
    None None None None.
Definition raw_config : ResultFusion.HybridConfig :=
  ResultFusion.mkHybridConfig (Some "weighted"%string) (Some false)
    None None None None.

End Fixtures.

(** ** Fixtures: linguistic resources for plain lower-case English words *)

Module TextFixtures.

Import Preprocessing.

(** On text made of lower-case words separated by blanks, without markup,
    addresses or punctuation, the tokenizer splits at the blanks, the
    rewritings find nothing to replace, and the words used below are their
    own lemmas and stems. *)
Definition plain_nltk : Nltk :=
  {| stopwords_english := ["the"; "is"; "a"; "of"; "in"; "and"]%string;
     word_tokenize := Str.split_words;
     wordnet_lemmatize := fun w => w;
     porter_stem := fun w => w;
     _remove_html := fun s => s;
     _remove_urls := fun s => s;
     _remove_emails := fun s => s;
     sub_punctuation := fun s => s |}.

(** The configuration of tests/test_preprocessing.py. *)
Definition test_config : PreprocessingConfig :=
  mkPreprocessingConfig (Some true) (Some true) (Some true) (Some true)
    (Some 2%nat) (Some 50%nat).

Definition query_preprocessor : TextPreprocessor :=
  __init__ plain_nltk test_config.

(** The same pipeline without lower-casing. *)
Definition case_config : PreprocessingConfig :=
  mkPreprocessingConfig (Some false) (Some true) (Some true) (Some true)
    (Some 2%nat) (Some 50%nat).

Definition case_preprocessor : TextPreprocessor :=
  __init__ plain_nltk case_config.

(** A lexical index over the single document [cat], and one, built without
    lower-casing, over the single document [NLP]. *)
Definition cat_index : BM25.BM25Searcher :=
  BM25.index_documents (preprocess plain_nltk query_preprocessor)
    (BM25.new_searcher (15 # 10) (75 # 100) (25 # 100))
    [Models.new_Document "1" "cat"].

Definition nlp_index : BM25.BM25Searcher :=
  BM25.index_documents (preprocess plain_nltk case_preprocessor)
    (BM25.new_searcher (15 # 10) (75 # 100) (25 # 100))
    [Models.new_Document "1" "NLP"].

(** A lexical index built by two calls of [index_documents]: the id [1]
    comes twice in the first call, the id [2] once in each. *)
Definition pets_index : BM25.BM25Searcher :=
  BM25.index_documents (preprocess plain_nltk query_preprocessor)
    (BM25.index_documents (preprocess plain_nltk query_preprocessor)
       (BM25.new_searcher (15 # 10) (75 # 100) (25 # 100))
       [Models.new_Document "1" "cat sat"; Models.new_Document "2" "dog";
        Models.new_Document "1" "bird"])
    [Models.new_Document "3" "fish swims"; Models.new_Document "2" "cow"].

(** A toy scorer (the number of query tokens a document contains) and an
    order for the results. *)
Definition toy_scores (model : BM25.BM25Okapi) (query_tokens : list string)
    : list Q :=
  map (fun doc_tokens =>
         inject_Z (Z.of_nat
           (length (List.filter (fun t => BM25.mentions t doc_tokens)
                      query_tokens))))
    (BM25.corpus model).

Definition by_score (results : list Models.SearchResult)
    : list Models.SearchResult :=
  sort_desc Models.score results.

End TextFixtures.

(** ** Fixtures: a toy embedding model *)

Module SemanticFixtures.

Import Models Semantic.

(** A one-dimensional stand-in for the sentence-transformer. *)
Definition toy_model (text : string) : vector :=
  [inject_Z (Z.of_nat (String.length text))].

(** A generator whose cache already holds an embedding of [a]. *)
Definition warm_generator : EmbeddingGenerator :=
  {| batch_size := 32; embedding_dim := 1;
     embedding_cache := {[ "a"%string := [7%Q] ]};
     cache_enabled := true |}.

Definition batch : list string := ["a"; "bb"; "a"; "ccc"]%string.

(** A vector index over the single document [cat], and the same index
    after the same document is handed to [index_documents] again. *)
Definition indexed_once : SemanticSearcher :=
  index_documents toy_model (new_searcher 1 true "IndexFlatL2")
    [new_Document "1" "cat"].

Definition indexed_twice : SemanticSearcher :=
  index_documents toy_model indexed_once [new_Document "1" "cat"].

(** A stand-in for FAISS: the first [k] rows, each at distance 2. *)
Definition flat_search (self : VectorIndex) (query_vector : vector) (k : nat)
    : list (Q * Z) :=
  map (fun i => (2%Q, Z.of_nat i)) (seq 0 (Nat.min k (length (index self)))).

(** A stand-in for an exact L2 index: the squared distances of the rows
    to the query vector, nearest first, cut at [k]. *)
Definition squared_distance (u v : vector) : Q :=
  foldr Qplus 0%Q
    (map (fun p => ((fst p - snd p) * (fst p - snd p))%Q) (combine u v)).

Definition exact_search (self : VectorIndex) (query_vector : vector) (k : nat)
    : list (Q * Z) :=
  firstn k
    (sort_desc (fun hit : Q * Z => (- fst hit)%Q)
       (imap (fun i row => (squared_distance row query_vector, Z.of_nat i))
          (index self))).

(** A vector index over three documents. *)
Definition zoo_index : SemanticSearcher :=
  index_documents toy_model (new_searcher 1 true "IndexFlatL2")
    [new_Document "1" "cat"; new_Document "2" "horse"; new_Document "3" "ox"].

End SemanticFixtures.

(** ** Fixtures: an indexed engine with a one-word thesaurus *)

Module HybridFixtures.

Import Models.

(** WordNet, cut down to the synonym [auto] of [car]. *)
Definition thesaurus (term : string) : list string :=
  if String.eqb term "car" then ["auto"%string] else [].

Definition synonym_expander : Query -> outcome Query :=
  Expansion.synonym_expand
    (fun text =>
       fst (Preprocessing.query_preprocess TextFixtures.plain_nltk
              TextFixtures.query_preprocessor text))
    thesaurus 3.

(** An engine with the default fusion settings and the synonym strategy,
    before and after indexing. *)
Definition fresh_engine : Hybrid.HybridSearch :=
  Hybrid.__init__
    (Expansion.mkQueryExpander true [synonym_expander])
    (ResultFusion.__init__ ResultFusion.empty_config).

Definition indexed_engine : Hybrid.HybridSearch :=
  Hybrid.set_indexed fresh_engine.

(** Stand-ins for the two engines: each returns a sample list. *)
Definition bm25_stub (query : Query) : list SearchResult := Fixtures.results1.
Definition semantic_stub (query : Query) : list SearchResult := Fixtures.results2.

(** One admissible order of [list(set(...))]: first occurrences. *)
Definition first_occurrences (terms : list string) : list string :=
  remove_dups terms.

(** The indexed engine with reciprocal rank fusion. *)
Definition rrf_engine : Hybrid.HybridSearch :=
  Hybrid.mkHybridSearch
    (Expansion.mkQueryExpander true [synonym_expander])
    (ResultFusion.__init__ Fixtures.rrf_config) true.

End HybridFixtures.

(** * Properties *)

(** ** Min-max normalisation *)

Section MinMaxFacts.

Import ScoreNormalizer.
Local Open Scope Q_scope.

Lemma np_min_lower (rest : list Q) (x : Q) :
  np_min x rest <= x /\ Forall (fun y => np_min x rest <= y) rest.
Proof.
  unfold np_min. revert x.
  induction rest as [|y rest IH]; intros x; simpl.
  - split; [apply Qle_refl | constructor].
  - destruct (IH (Qmin x y)) as [Hx Hrest]. split.
    + eapply Qle_trans; [exact Hx | apply Q.le_min_l].
    + constructor; [|exact Hrest].
      eapply Qle_trans; [exact Hx | apply Q.le_min_r].
Qed.

Lemma np_max_upper (rest : list Q) (x : Q) :
  x <= np_max x rest /\ Forall (fun y => y <= np_max x rest) rest.
Proof.
  unfold np_max. revert x.
  induction rest as [|y rest IH]; intros x; simpl.
  - split; [apply Qle_refl | constructor].
  - destruct (IH (Qmax x y)) as [Hx Hrest]. split.
    + eapply Qle_trans; [apply Q.le_max_l | exact Hx].
    + constructor; [|exact Hrest].
      eapply Qle_trans; [apply Q.le_max_r | exact Hx].
Qed.

Lemma np_min_attained (rest : list Q) (x : Q) :
  Exists (fun y => y == np_min x rest) (x :: rest).
Proof.
  unfold np_min. revert x.
  induction rest as [|y rest IH]; intros x; simpl.
  - left. reflexivity.
  - specialize (IH (Qmin x y)).
    apply Exists_cons in IH as [Hhd | Htl].
    + destruct (Q.min_spec x y) as [[_ Hm] | [_ Hm]].
      * left. rewrite <- Hhd. symmetry. exact Hm.
      * right. left. rewrite <- Hhd. symmetry. exact Hm.
    + right. right. exact Htl.
Qed.

Lemma np_max_attained (rest : list Q) (x : Q) :
  Exists (fun y => y == np_max x rest) (x :: rest).
Proof.
  unfold np_max. revert x.
  induction rest as [|y rest IH]; intros x; simpl.
  - left. reflexivity.
  - specialize (IH (Qmax x y)).
    apply Exists_cons in IH as [Hhd | Htl].
    + destruct (Q.max_spec x y) as [[_ Hm] | [_ Hm]].
      * right. left. rewrite <- Hhd. symmetry. exact Hm.
      * left. rewrite <- Hhd. symmetry. exact Hm.
    + right. right. exact Htl.
Qed.

Lemma np_min_le_max (rest : list Q) (x : Q) : np_min x rest <= np_max x rest.
Proof.
  eapply Qle_trans; [apply np_min_lower | apply np_max_upper].
Qed.

Lemma all_equal_min_max (x : Q) (rest : list Q) :
  all_equal (x :: rest) <-> np_max x rest == np_min x rest.
Proof.
  split.
  - intros Heq.
    pose proof (np_min_attained rest x) as Hmin.
    pose proof (np_max_attained rest x) as Hmax.
    apply List.Exists_exists in Hmin as (a & Ha & Hamin).
    apply List.Exists_exists in Hmax as (b & Hb & Hbmax).
    rewrite <- Hamin, <- Hbmax. apply Heq; assumption.
  - intros Hmm a b Ha Hb.
    assert (Hbounds : forall c, In c (x :: rest) ->
              np_min x rest <= c /\ c <= np_max x rest).
    { intros c [<- | Hc].
      - split; [apply np_min_lower | apply np_max_upper].
      - destruct (np_min_lower rest x) as [_ Hlo].
        destruct (np_max_upper rest x) as [_ Hhi].
        rewrite !List.Forall_forall in Hlo, Hhi. split; auto. }
    destruct (Hbounds a Ha) as [Ha1 Ha2], (Hbounds b Hb) as [Hb1 Hb2].
    rewrite Hmm in Ha2, Hb2.
    apply Qle_antisym; eapply Qle_trans; eauto.
Qed.

(** C7.  [min_max_normalize] maps the empty list to the empty list; a
    non-empty list of equal scores to as many ones; and any other list,
    through [(x - min) / (max - min)], to a list of the same length whose
    least element is 0 and whose greatest element is 1. *)
Theorem min_max_normalize_spec :
  ScoreNormalizer.min_max_normalize [] = []
  /\ (forall scores : list Q,
        scores <> [] -> ScoreNormalizer.all_equal scores ->
        ScoreNormalizer.min_max_normalize scores
          = repeat 1%Q (length scores))
  /\ (forall scores : list Q,
        ~ ScoreNormalizer.all_equal scores ->
        exists lo hi : Q,
          ScoreNormalizer.is_minimum lo scores
          /\ ScoreNormalizer.is_maximum hi scores
          /\ ScoreNormalizer.min_max_normalize scores
               = map (fun x => ((x - lo) / (hi - lo))%Q) scores
          /\ length (ScoreNormalizer.min_max_normalize scores) = length scores
          /\ ScoreNormalizer.is_minimum 0%Q
               (ScoreNormalizer.min_max_normalize scores)
          /\ ScoreNormalizer.is_maximum 1%Q
               (ScoreNormalizer.min_max_normalize scores)).
Proof.
  split; [reflexivity|]. split.
  - intros [|x rest] Hne Heq; [congruence|].
    apply all_equal_min_max in Heq.
    unfold min_max_normalize. apply Qeq_bool_iff in Heq. rewrite Heq.
    reflexivity.
  - intros [|x rest] Hneq.
    { exfalso. apply Hneq. intros a b []. }
    assert (Hd : ~ (np_max x rest == np_min x rest)%Q).
    { intros H. apply Hneq, all_equal_min_max, H. }
    assert (Hlt : (np_min x rest < np_max x rest)%Q).
    { destruct (Qle_lt_or_eq _ _ (np_min_le_max rest x)) as [H|H]; [exact H|].
      exfalso. apply Hd. symmetry. exact H. }
    assert (Hpos : (0 < np_max x rest - np_min x rest)%Q).
    { unfold Qminus. rewrite <- Qlt_minus_iff. exact Hlt. }
    assert (Hbool : Qeq_bool (np_max x rest) (np_min x rest) = false).
    { destruct (Qeq_bool _ _) eqn:E; [|reflexivity].
      apply Qeq_bool_iff in E. contradiction. }
    pose proof (np_min_lower rest x) as [Hlo_hd Hlo_tl].
    pose proof (np_max_upper rest x) as [Hhi_hd Hhi_tl].
    assert (Hlo : Forall (fun y => np_min x rest <= y)%Q (x :: rest))
      by (constructor; assumption).
    assert (Hhi : Forall (fun y => y <= np_max x rest)%Q (x :: rest))
      by (constructor; assumption).
    assert (Hnorm : min_max_normalize (x :: rest)
              = map (fun s => ((s - np_min x rest)
                               / (np_max x rest - np_min x rest))%Q)
                  (x :: rest)).
    { unfold min_max_normalize. rewrite Hbool. reflexivity. }
    exists (np_min x rest), (np_max x rest).
    split; [split; [apply np_min_attained | exact Hlo]|].
    split; [split; [apply np_max_attained | exact Hhi]|].
    split; [exact Hnorm|].
    rewrite Hnorm. split; [apply length_map|].
    split; split.
    + pose proof (np_min_attained rest x) as Hex.
      apply List.Exists_exists in Hex as (a & Ha & Heq).
      apply List.Exists_exists. eexists. split; [apply in_map, Ha|].
      cbv beta. rewrite Heq. field. intros H0. rewrite H0 in Hpos.
      exact (Qlt_irrefl _ Hpos).
    + apply List.Forall_map.
      eapply List.Forall_impl; [|exact Hlo]. intros a Ha. cbv beta.
      apply Qle_shift_div_l; [exact Hpos|].
      rewrite Qmult_0_l. unfold Qminus. rewrite <- Qle_minus_iff. exact Ha.
    + pose proof (np_max_attained rest x) as Hex.
      apply List.Exists_exists in Hex as (a & Ha & Heq).
      apply List.Exists_exists. eexists. split; [apply in_map, Ha|].
      cbv beta. rewrite Heq. field. intros H0. rewrite H0 in Hpos.
      exact (Qlt_irrefl _ Hpos).
    + apply List.Forall_map.
      eapply List.Forall_impl; [|exact Hhi]. intros a Ha. cbv beta.
      apply Qle_shift_div_r; [exact Hpos|].
      rewrite Qmult_1_l. unfold Qminus.
      apply Qplus_le_l. exact Ha.
Qed.

Lemma min_max_normalize_spec_witness :
  ScoreNormalizer.min_max_normalize [5; 5]%Q = [1; 1]%Q
  /\ ScoreNormalizer.is_minimum 0%Q
       (ScoreNormalizer.min_max_normalize [1; 2; 3]%Q)
  /\ ScoreNormalizer.is_maximum 1%Q
       (ScoreNormalizer.min_max_normalize [1; 2; 3]%Q).
Proof.
  destruct min_max_normalize_spec as (_ & Hconst & Hspread).
  split.
  - apply (Hconst [5; 5]%Q); [discriminate|].
    intros a b [<-|[<-|[]]] [<-|[<-|[]]]; reflexivity.
  - destruct (Hspread [1; 2; 3]%Q) as (lo & hi & _ & _ & _ & _ & Hmin & Hmax).
    + intros Heq. specialize (Heq 1%Q 2%Q).
      assert (H12 : (1 == 2)%Q) by (apply Heq; simpl; auto).
      discriminate H12.
    + split; assumption.
Defined.

End MinMaxFacts.

(** ** Insertion-ordered dictionaries *)

Section ODictFacts.

Context {V : Type}.
Implicit Types (d : ODict.odict V) (key : string) (v : V).

Lemma odict_get_set_eq d key v : ODict.get (ODict.set d key v) key = Some v.
Proof.
  induction d as [|[k0 v0] d IH]; simpl.
  - rewrite String.eqb_refl. reflexivity.
  - destruct (String.eqb k0 key) eqn:E; simpl; rewrite E; auto.
Qed.

Lemma odict_get_set_ne d key key' v :
  key <> key' -> ODict.get (ODict.set d key v) key' = ODict.get d key'.
Proof.
  intros Hne. induction d as [|[k0 v0] d IH]; simpl.
  - destruct (String.eqb key key') eqn:E; [|reflexivity].
    apply String.eqb_eq in E. contradiction.
  - destruct (String.eqb k0 key) eqn:E; simpl.
    + apply String.eqb_eq in E. subst k0.
      destruct (String.eqb key key') eqn:E'; [|reflexivity].
      apply String.eqb_eq in E'. contradiction.
    + rewrite IH. reflexivity.
Qed.

Lemma odict_get_None d key : ODict.get d key = None <-> ~ In key (ODict.keys d).
Proof.
  induction d as [|[k0 v0] d IH]; simpl.
  - tauto.
  - destruct (String.eqb k0 key) eqn:E.
    + apply String.eqb_eq in E. split; [discriminate | tauto].
    + apply String.eqb_neq in E. rewrite IH. tauto.
Qed.

Lemma odict_get_In d key v : ODict.get d key = Some v -> In (key, v) d.
Proof.
  induction d as [|[k0 v0] d IH]; simpl; [discriminate|].
  destruct (String.eqb k0 key) eqn:E.
  - apply String.eqb_eq in E. intros [= ->]. left. congruence.
  - auto.
Qed.

Lemma odict_In_get d key v :
  NoDup (ODict.keys d) -> In (key, v) d -> ODict.get d key = Some v.
Proof.
  induction d as [|[k0 v0] d IH]; simpl; [tauto|].
  intros Hnd [Heq | Hin].
  - injection Heq as -> ->. rewrite String.eqb_refl. reflexivity.
  - apply NoDup_cons in Hnd as [Hnotin Hnd].
    destruct (String.eqb k0 key) eqn:E.
    + apply String.eqb_eq in E. subst k0.
      exfalso. apply Hnotin, list_elem_of_In.
      change key with (fst (key, v)). apply in_map. exact Hin.
    + apply IH; assumption.
Qed.

Lemma odict_keys_set_present d key v v' :
  ODict.get d key = Some v' -> ODict.keys (ODict.set d key v) = ODict.keys d.
Proof.
  unfold ODict.keys.
  induction d as [|[k0 v0] d IH]; simpl; [discriminate|].
  destruct (String.eqb k0 key) eqn:E; simpl; [reflexivity|].
  intros H. f_equal. auto.
Qed.

Lemma odict_keys_set_absent d key v :
  ODict.get d key = None -> ODict.keys (ODict.set d key v) = ODict.keys d ++ [key].
Proof.
  unfold ODict.keys.
  induction d as [|[k0 v0] d IH]; simpl; [reflexivity|].
  destruct (String.eqb k0 key) eqn:E; simpl; [discriminate|].
  intros H. f_equal. auto.
Qed.

Lemma odict_set_NoDup d key v :
  NoDup (ODict.keys d) -> NoDup (ODict.keys (ODict.set d key v)).
Proof.
  intros Hnd. destruct (ODict.get d key) as [v'|] eqn:E.
  - erewrite odict_keys_set_present; eauto.
  - rewrite odict_keys_set_absent by exact E.
    apply NoDup_app. split; [exact Hnd|]. split.
    + intros x Hx Hx'. apply list_elem_of_In in Hx, Hx'.
      destruct Hx' as [<-|[]]. apply odict_get_None in E. contradiction.
    + apply NoDup_singleton.
Qed.

Lemma odict_set_Forall (P : string * V -> Prop) d key v :
  Forall P d -> P (key, v) -> Forall P (ODict.set d key v).
Proof.
  intros Hall Hnew. induction Hall as [|[k0 v0] d Hp Hall IH]; simpl.
  - repeat constructor. exact Hnew.
  - destruct (String.eqb k0 key) eqn:E.
    + apply String.eqb_eq in E. subst k0. constructor; assumption.
    + constructor; assumption.
Qed.

End ODictFacts.

Lemma odict_keys_set_In {V : Type} (d : ODict.odict V) (key k0 : string)
    (v : V) :
  In k0 (ODict.keys (ODict.set d key v)) <-> In k0 (ODict.keys d) \/ k0 = key.
Proof.
  destruct (ODict.get d key) as [v'|] eqn:E.
  - rewrite (odict_keys_set_present d key v v' E). split; [auto|].
    intros [H | ->]; [exact H|].
    apply odict_get_In in E. change key with (fst (key, v')).
    apply in_map, E.
  - rewrite (odict_keys_set_absent d key v E), in_app_iff. simpl.
    split; intros [H|H]; auto.
    + destruct H as [<-|[]]. auto.
Qed.

(** ** Stable descending sort *)

Section SortFacts.

Context {A : Type} (key : A -> Q).

Lemma insert_desc_perm (x : A) (l : list A) :
  Permutation (insert_desc key x l) (x :: l).
Proof.
  induction l as [|y l IH]; simpl; [reflexivity|].
  destruct (Qle_bool (key y) (key x)); [reflexivity|].
  rewrite IH. apply perm_swap.
Qed.

Lemma sort_desc_perm (l : list A) : Permutation (sort_desc key l) l.
Proof.
  induction l as [|x l IH]; simpl; [reflexivity|].
  rewrite insert_desc_perm. constructor. exact IH.
Qed.

Lemma insert_desc_sorted (x : A) (l : list A) :
  StronglySorted (fun a b => (key b <= key a)%Q) l ->
  StronglySorted (fun a b => (key b <= key a)%Q) (insert_desc key x l).
Proof.
  induction 1 as [|y l Hs IH Hall]; simpl.
  - repeat constructor.
  - destruct (Qle_bool (key y) (key x)) eqn:E.
    + apply Qle_bool_iff in E. constructor; [constructor; assumption|].
      constructor; [exact E|].
      eapply List.Forall_impl; [|exact Hall]. intros z Hz.
      simpl in *. eapply Qle_trans; eassumption.
    + constructor; [exact IH|].
      assert (Hxy : (key x <= key y)%Q).
      { apply Qlt_le_weak, Qnot_le_lt. intros Hle.
        apply Qle_bool_iff in Hle. congruence. }
      rewrite List.Forall_forall in *. intros z Hz.
      apply (Permutation_in _ (insert_desc_perm x l)) in Hz as [<-|Hz]; auto.
Qed.

Lemma sort_desc_sorted (l : list A) :
  StronglySorted (fun a b => (key b <= key a)%Q) (sort_desc key l).
Proof.
  induction l as [|x l IH]; simpl; [constructor|].
  apply insert_desc_sorted, IH.
Qed.

End SortFacts.

(** ** Weighted fusion *)

Section WeightedFusionFacts.

Import Models ResultFusion.
Local Open Scope Q_scope.

(** With the instance attribute set to [True], the first round of the loop
    calls a [bool]. *)
Lemma weighted_fusion_not_callable (self : ResultFusion)
    (result_sets : list (list SearchResult)) :
  normalize_scores self = Some true ->
  (2 <= length result_sets)%nat ->
  _weighted_fusion self result_sets = Raise TypeError.
Proof.
  intros Hattr Hlen.
  destruct result_sets as [|a [|b rest]]; simpl in Hlen; try lia.
  unfold _weighted_fusion.
  assert (Hw : exists w ws,
             normalize_weights
               (firstn (length (a :: b :: rest))
                  [bm25_weight self; semantic_weight self; expansion_weight self])
             = w :: ws).
  { unfold normalize_weights. simpl firstn.
    destruct (Qle_bool _ _); simpl; eauto. }
  destruct Hw as (w & ws & ->). simpl.
  unfold getattr_normalize_scores. rewrite Hattr. reflexivity.
Qed.

Lemma accumulate_well_keyed (weight : Q) (fused : ODict.odict SearchResult)
    (r : SearchResult) :
  well_keyed fused -> well_keyed (accumulate weight fused r).
Proof.
  intros [Hnd Hall]. unfold accumulate.
  destruct (ODict.get fused (id (document r))) as [cur|] eqn:E.
  - split; [apply odict_set_NoDup, Hnd|].
    apply odict_set_Forall; [exact Hall|]. simpl.
    apply odict_get_In in E. rewrite List.Forall_forall in Hall.
    apply (Hall _ E).
  - split; [apply odict_set_NoDup, Hnd|].
    apply odict_set_Forall; [exact Hall|]. reflexivity.
Qed.

Lemma fold_accumulate_well_keyed (weight : Q) (results : list SearchResult)
    (fused : ODict.odict SearchResult) :
  well_keyed fused -> well_keyed (fold_left (accumulate weight) results fused).
Proof.
  revert fused. induction results as [|r results IH]; intros fused H; simpl.
  - exact H.
  - apply IH, accumulate_well_keyed, H.
Qed.

Lemma weighted_loop_well_keyed (self : ResultFusion)
    (pairs : list (list SearchResult * Q))
    (fused fused' : ODict.odict SearchResult) :
  well_keyed fused ->
  weighted_loop self pairs fused = Ok fused' ->
  well_keyed fused'.
Proof.
  revert fused. induction pairs as [|[results weight] pairs IH];
    intros fused Hwk; simpl.
  - intros [= <-]. exact Hwk.
  - destruct (truthy (getattr_normalize_scores self)).
    + destruct (call (getattr_normalize_scores self) results) as [rs|e];
        simpl; [|discriminate].
      apply IH, fold_accumulate_well_keyed, Hwk.
    + simpl. apply IH, fold_accumulate_well_keyed, Hwk.
Qed.

(** Without normalisation the loop never raises. *)
Lemma weighted_loop_total (self : ResultFusion)
    (pairs : list (list SearchResult * Q))
    (fused : ODict.odict SearchResult) :
  normalize_scores self = Some false ->
  exists fused', weighted_loop self pairs fused = Ok fused'.
Proof.
  intros Hattr. revert fused.
  induction pairs as [|[results weight] pairs IH]; intros fused; simpl.
  - eauto.
  - unfold getattr_normalize_scores. rewrite Hattr. simpl. apply IH.
Qed.

Lemma well_keyed_ranking (fused : ODict.odict SearchResult) :
  well_keyed fused -> ranking (ODict.values fused) = ODict.keys fused.
Proof.
  intros [_ Hall]. unfold ranking, ODict.values, ODict.keys.
  induction Hall as [|[k0 v] fused Hkv Hall IH]; simpl in *; [reflexivity|].
  rewrite Hkv, IH. reflexivity.
Qed.

Lemma ranking_sort_NoDup (results : list SearchResult) :
  NoDup (ranking results) -> NoDup (ranking (sort_desc score results)).
Proof.
  intros H. unfold ranking in *.
  eapply NoDup_Permutation_proper; [|exact H].
  apply Permutation_map, sort_desc_perm.
Qed.

Lemma weighted_fusion_NoDup (self : ResultFusion)
    (result_sets : list (list SearchResult)) (out : list SearchResult) :
  _weighted_fusion self result_sets = Ok out -> NoDup (ranking out).
Proof.
  unfold _weighted_fusion.
  destruct (weighted_loop self _ []) as [fused|e] eqn:E; simpl; [|discriminate].
  intros [= <-]. apply ranking_sort_NoDup.
  apply weighted_loop_well_keyed in E.
  - rewrite (well_keyed_ranking _ E). apply E.
  - split; constructor.
Qed.

End WeightedFusionFacts.

(** ** Reciprocal rank fusion *)

Section RRFFacts.

Import Models ResultFusion.
Local Open Scope Q_scope.

(** The loop body reads the document of a result and nothing else. *)
Lemma rrf_inner_forget (self : ResultFusion) (results : list SearchResult)
    (rank : nat) (st : rrf_state) :
  rrf_inner self (map forget_scores results) rank st
  = rrf_inner self results rank st.
Proof.
  revert rank st. induction results as [|r results IH]; intros rank st; simpl.
  - reflexivity.
  - change (rrf_step self st rank (forget_scores r))
      with (rrf_step self st rank r).
    destruct (rrf_step self st rank r); simpl; auto.
Qed.

Lemma rrf_outer_forget (self : ResultFusion)
    (result_sets : list (list SearchResult)) (st : rrf_state) :
  rrf_outer self (map (map forget_scores) result_sets) st
  = rrf_outer self result_sets st.
Proof.
  revert st. induction result_sets as [|results sets IH]; intros st; simpl.
  - reflexivity.
  - rewrite rrf_inner_forget.
    destruct (rrf_inner self results 1 st); simpl; auto.
Qed.

Lemma same_ranks_forget (a b : list (list SearchResult)) :
  same_ranks a b -> map (map forget_scores) a = map (map forget_scores) b.
Proof.
  unfold same_ranks. intros H.
  assert (Hfactor : forall l : list (list SearchResult),
             map (map forget_scores) l
             = map (map (fun d => new_SearchResult d 0)) (map (map document) l)).
  { intros l. rewrite List.map_map. apply List.map_ext. intros rs.
    rewrite List.map_map. reflexivity. }
  rewrite !Hfactor, H. reflexivity.
Qed.

Lemma rrf_scores_blind (self : ResultFusion)
    (a b : list (list SearchResult)) :
  same_ranks a b ->
  _reciprocal_rank_fusion self a = _reciprocal_rank_fusion self b.
Proof.
  intros H. unfold _reciprocal_rank_fusion.
  rewrite <- (rrf_outer_forget self a), <- (rrf_outer_forget self b).
  rewrite (same_ranks_forget _ _ H). reflexivity.
Qed.

Lemma rrf_step_inv (self : ResultFusion) (st st' : rrf_state) (rank : nat)
    (r : SearchResult) :
  rrf_inv st -> rrf_step self st rank r = Ok st' -> rrf_inv st'.
Proof.
  destruct st as [scores docs]. intros (Hnd & Hkeys & Hdocs). simpl in *.
  unfold rrf_step.
  destruct (Qeq_bool _ 0); [discriminate|].
  destruct (ODict.get scores (id (document r))) as [total|] eqn:E;
    intros [= <-]; unfold rrf_inv; simpl.
  - split; [apply odict_set_NoDup, Hnd|]. split; [|exact Hdocs].
    erewrite odict_keys_set_present; eauto.
  - assert (Hd : ODict.get docs (id (document r)) = None).
    { apply odict_get_None. rewrite <- Hkeys. apply odict_get_None, E. }
    split; [apply odict_set_NoDup, Hnd|]. split.
    + rewrite !odict_keys_set_absent by assumption. congruence.
    + apply odict_set_Forall; [exact Hdocs | reflexivity].
Qed.

Lemma rrf_step_total (self : ResultFusion) (st st' : rrf_state) (rank : nat)
    (r : SearchResult) (doc_id : string) :
  rrf_step self st rank r = Ok st' ->
  total_of (fst st') doc_id
  == total_of (fst st) doc_id
     + (if String.eqb (id (document r)) doc_id
        then 1 / (k_rrf self + inject_Z (Z.of_nat rank)) else 0).
Proof.
  destruct st as [scores docs]. unfold rrf_step, total_of.
  destruct (Qeq_bool _ 0); [discriminate|].
  destruct (ODict.get scores (id (document r))) as [total|] eqn:E;
    intros [= <-]; simpl;
    (destruct (String.eqb (id (document r)) doc_id) eqn:Eid;
     [ apply String.eqb_eq in Eid; subst doc_id;
       rewrite odict_get_set_eq, E; simpl; ring
     | apply String.eqb_neq in Eid;
       rewrite odict_get_set_ne by exact Eid; ring ]).
Qed.

Lemma rrf_step_total_ok (self : ResultFusion) (st : rrf_state) (rank : nat)
    (r : SearchResult) :
  0 <= k_rrf self -> (1 <= rank)%nat ->
  exists st', rrf_step self st rank r = Ok st'.
Proof.
  intros Hk Hrank. destruct st as [scores docs]. unfold rrf_step.
  destruct (Qeq_bool _ 0) eqn:E.
  - exfalso. apply Qeq_bool_iff in E.
    assert (Hpos : 0 < inject_Z (Z.of_nat rank)).
    { change 0 with (inject_Z 0). rewrite <- Zlt_Qlt. lia. }
    assert (0 < k_rrf self + inject_Z (Z.of_nat rank)).
    { apply Qlt_le_trans with (0 + inject_Z (Z.of_nat rank)).
      - rewrite Qplus_0_l. exact Hpos.
      - apply Qplus_le_l. exact Hk. }
    rewrite E in H. exact (Qlt_irrefl _ H).
  - destruct (ODict.get scores _); eauto.
Qed.

Lemma rrf_inner_facts (self : ResultFusion) (results : list SearchResult)
    (rank : nat) (st st' : rrf_state) :
  rrf_inner self results rank st = Ok st' ->
  (rrf_inv st -> rrf_inv st')
  /\ forall doc_id,
       total_of (fst st') doc_id
       == total_of (fst st) doc_id
          + rank_contribution (k_rrf self) doc_id results rank.
Proof.
  revert rank st. induction results as [|r results IH]; intros rank st; simpl.
  - intros [= <-]. split; [auto|]. intros d. ring.
  - destruct (rrf_step self st rank r) as [st1|e] eqn:E; simpl; [|discriminate].
    intros H. destruct (IH _ _ H) as [Hinv Htot]. split.
    + intros Hst. eapply Hinv, rrf_step_inv; eauto.
    + intros d. rewrite Htot, (rrf_step_total _ _ _ _ _ d E). ring.
Qed.

Lemma rrf_inner_ok (self : ResultFusion) (results : list SearchResult)
    (rank : nat) (st : rrf_state) :
  0 <= k_rrf self -> (1 <= rank)%nat ->
  exists st', rrf_inner self results rank st = Ok st'.
Proof.
  intros Hk. revert rank st.
  induction results as [|r results IH]; intros rank st Hrank; simpl.
  - eauto.
  - destruct (rrf_step_total_ok self st rank r Hk Hrank) as [st1 ->]. simpl.
    apply IH. lia.
Qed.

Lemma rrf_outer_facts (self : ResultFusion)
    (result_sets : list (list SearchResult)) (st st' : rrf_state) :
  rrf_outer self result_sets st = Ok st' ->
  (rrf_inv st -> rrf_inv st')
  /\ forall doc_id,
       total_of (fst st') doc_id
       == total_of (fst st) doc_id + rrf_total (k_rrf self) doc_id result_sets.
Proof.
  revert st. induction result_sets as [|results sets IH]; intros st; simpl.
  - intros [= <-]. split; [auto|]. intros d. ring.
  - destruct (rrf_inner self results 1 st) as [st1|e] eqn:E; simpl;
      [|discriminate].
    intros H. destruct (IH _ H) as [Hinv Htot].
    destruct (rrf_inner_facts _ _ _ _ _ E) as [Hinv1 Htot1]. split.
    + auto.
    + intros d. rewrite Htot, Htot1. ring.
Qed.

Lemma rrf_outer_ok (self : ResultFusion)
    (result_sets : list (list SearchResult)) (st : rrf_state) :
  0 <= k_rrf self -> exists st', rrf_outer self result_sets st = Ok st'.
Proof.
  intros Hk. revert st.
  induction result_sets as [|results sets IH]; intros st; simpl.
  - eauto.
  - destruct (rrf_inner_ok self results 1 st Hk) as [st1 ->]; [lia|]. simpl.
    apply IH.
Qed.

Lemma rrf_results_spec (documents : ODict.odict Document)
    (entries : list (string * Q)) :
  Forall (fun kd => id (snd kd) = fst kd) documents ->
  (forall key, In key (map fst entries) -> In key (ODict.keys documents)) ->
  exists out,
    rrf_results documents entries = Ok out
    /\ map (fun r => (id (document r), score r)) out = entries.
Proof.
  intros Hdocs. induction entries as [|[doc_id total] entries IH]; intros Hkeys.
  - exists []. split; reflexivity.
  - simpl. destruct (ODict.get documents doc_id) as [d|] eqn:E.
    + destruct IH as (out & -> & Hout).
      { intros key Hkey. apply Hkeys. right. exact Hkey. }
      simpl. eexists. split; [reflexivity|]. simpl.
      apply odict_get_In in E. rewrite List.Forall_forall in Hdocs.
      pose proof (Hdocs _ E) as Hd. simpl in Hd.
      rewrite Hd, Hout. reflexivity.
    + exfalso. apply odict_get_None in E. apply E, Hkeys. left. reflexivity.
Qed.

Lemma rrf_step_keys (self : ResultFusion) (st st' : rrf_state) (rank : nat)
    (r : SearchResult) (doc_id : string) :
  rrf_step self st rank r = Ok st' ->
  (In doc_id (ODict.keys (fst st'))
   <-> In doc_id (ODict.keys (fst st)) \/ doc_id = id (document r)).
Proof.
  destruct st as [scores docs]. unfold rrf_step.
  destruct (Qeq_bool _ 0); [discriminate|].
  destruct (ODict.get scores (id (document r)));
    intros [= <-]; simpl; apply odict_keys_set_In.
Qed.

Lemma rrf_inner_keys (self : ResultFusion) (results : list SearchResult)
    (rank : nat) (st st' : rrf_state) (doc_id : string) :
  rrf_inner self results rank st = Ok st' ->
  (In doc_id (ODict.keys (fst st'))
   <-> In doc_id (ODict.keys (fst st))
       \/ exists r, In r results /\ id (document r) = doc_id).
Proof.
  revert rank st. induction results as [|r results IH]; intros rank st; simpl.
  - intros [= <-]. split; [auto|]. intros [H|(r & [] & _)]. exact H.
  - destruct (rrf_step self st rank r) as [st1|e] eqn:E; simpl; [|discriminate].
    intros H. rewrite (IH _ _ H), (rrf_step_keys _ _ _ _ _ doc_id E). split.
    + intros [[H1| ->]|(r' & Hr' & Hid)]; eauto.
    + intros [H1|(r' & [<-|Hr'] & Hid)]; eauto.
Qed.

Lemma rrf_outer_keys (self : ResultFusion)
    (result_sets : list (list SearchResult)) (st st' : rrf_state)
    (doc_id : string) :
  rrf_outer self result_sets st = Ok st' ->
  (In doc_id (ODict.keys (fst st'))
   <-> In doc_id (ODict.keys (fst st)) \/ occurs_in doc_id result_sets).
Proof.
  revert st. induction result_sets as [|results sets IH]; intros st; simpl.
  - intros [= <-]. split; [auto|]. intros [H|(rs & r & [] & _)]. exact H.
  - destruct (rrf_inner self results 1 st) as [st1|e] eqn:E; simpl;
      [|discriminate].
    intros H. rewrite (IH _ H), (rrf_inner_keys _ _ _ _ _ doc_id E).
    unfold occurs_in. simpl. split.
    + intros [[H1|(r & Hr & Hid)]|(rs & r & Hrs & Hr & Hid)]; eauto 8.
    + intros [H1|(rs & r & [<-|Hrs] & Hr & Hid)]; eauto 8.
Qed.

(** What [_reciprocal_rank_fusion] returns, whenever it returns. *)
Lemma rrf_fusion_returns (self : ResultFusion)
    (result_sets : list (list SearchResult)) (out : list SearchResult) :
  _reciprocal_rank_fusion self result_sets = Ok out ->
  sorted_desc out
  /\ NoDup (ranking out)
  /\ Forall (fun r => score r
                      == rrf_total (k_rrf self) (id (document r)) result_sets)
       out.
Proof.
  unfold _reciprocal_rank_fusion.
  destruct (rrf_outer self result_sets ([], [])) as [[scores docs]|e] eqn:E;
    simpl; [|discriminate].
  destruct (rrf_outer_facts _ _ _ _ E) as [Hinv Htot].
  destruct Hinv as (Hnd & Hkeys & Hdocs); [repeat split; constructor|].
  simpl in *.
  destruct (rrf_results_spec docs scores Hdocs) as (pre & Hpre & Hmap).
  { intros key Hkey. rewrite <- Hkeys. exact Hkey. }
  unfold ODict.items. rewrite Hpre. simpl. intros [= <-].
  split; [apply sort_desc_sorted|].
  assert (Hrank : ranking pre = ODict.keys scores).
  { unfold ranking, ODict.keys. rewrite <- Hmap, List.map_map. reflexivity. }
  split.
  - apply ranking_sort_NoDup. rewrite Hrank. exact Hnd.
  - rewrite List.Forall_forall. intros r Hr.
    apply (Permutation_in _ (sort_desc_perm score pre)) in Hr.
    assert (Hin : In (id (document r), score r) scores).
    { rewrite <- Hmap.
      apply (in_map (fun r => (id (document r), score r))), Hr. }
    apply odict_In_get in Hin; [|exact Hnd].
    specialize (Htot (id (document r))).
    unfold total_of in Htot. rewrite Hin in Htot. simpl in Htot.
    rewrite Htot. ring.
Qed.

(** The documents of the fused list are the documents of the input
    lists. *)
Lemma rrf_fusion_keys (self : ResultFusion)
    (result_sets : list (list SearchResult)) (out : list SearchResult) :
  _reciprocal_rank_fusion self result_sets = Ok out ->
  forall doc_id, In doc_id (ranking out) <-> occurs_in doc_id result_sets.
Proof.
  unfold _reciprocal_rank_fusion.
  destruct (rrf_outer self result_sets ([], [])) as [[scores docs]|e] eqn:E;
    simpl; [|discriminate].
  destruct (rrf_outer_facts _ _ _ _ E) as [Hinv _].
  destruct Hinv as (Hnd & Hkeys & Hdocs); [repeat split; constructor|].
  simpl in *.
  destruct (rrf_results_spec docs scores Hdocs) as (pre & Hpre & Hmap).
  { intros key Hkey. rewrite <- Hkeys. exact Hkey. }
  unfold ODict.items. rewrite Hpre. simpl. intros [= <-] doc_id.
  assert (Hrank : ranking pre = ODict.keys scores).
  { unfold ranking, ODict.keys. rewrite <- Hmap, List.map_map. reflexivity. }
  assert (Hperm : In doc_id (ranking (sort_desc score pre))
                  <-> In doc_id (ranking pre)).
  { unfold ranking. split; apply Permutation_in, Permutation_map;
      [|symmetry]; apply sort_desc_perm. }
  rewrite Hperm, Hrank.
  rewrite (rrf_outer_keys _ _ _ _ doc_id E). simpl.
  split; [intros [[]|H]; exact H | auto].
Qed.

(** The division is the only operation of the loops that can raise. *)
Lemma rrf_step_raises (self : ResultFusion) (st : rrf_state) (rank : nat)
    (r : SearchResult) (e : exn) :
  rrf_step self st rank r = Raise e ->
  e = ZeroDivisionError /\ k_rrf self + inject_Z (Z.of_nat rank) == 0.
Proof.
  destruct st as [scores docs]. unfold rrf_step.
  destruct (Qeq_bool _ 0) eqn:E.
  - intros [= <-]. split; [reflexivity|]. apply Qeq_bool_iff, E.
  - destruct (ODict.get scores (id (document r))); discriminate.
Qed.

Lemma rrf_inner_raises (self : ResultFusion) (results : list SearchResult)
    (rank : nat) (st : rrf_state) (e : exn) :
  rrf_inner self results rank st = Raise e ->
  e = ZeroDivisionError
  /\ exists r, (rank <= r)%nat /\ (r < rank + length results)%nat
               /\ k_rrf self + inject_Z (Z.of_nat r) == 0.
Proof.
  revert rank st. induction results as [|x results IH]; intros rank st; simpl.
  - discriminate.
  - destruct (rrf_step self st rank x) as [st1|e1] eqn:E; simpl.
    + intros H. destruct (IH _ _ H) as (-> & r & Hlo & Hhi & Hz).
      split; [reflexivity|]. exists r. repeat split; [lia | lia | exact Hz].
    + intros [= <-]. destruct (rrf_step_raises _ _ _ _ _ E) as [-> Hz].
      split; [reflexivity|]. exists rank. repeat split; [lia | lia | exact Hz].
Qed.

Lemma rrf_outer_raises (self : ResultFusion)
    (result_sets : list (list SearchResult)) (st : rrf_state) (e : exn) :
  rrf_outer self result_sets st = Raise e ->
  e = ZeroDivisionError
  /\ exists results r,
       In results result_sets /\ (1 <= r)%nat /\ (r <= length results)%nat
       /\ k_rrf self + inject_Z (Z.of_nat r) == 0.
Proof.
  revert st. induction result_sets as [|results sets IH]; intros st; simpl.
  - discriminate.
  - destruct (rrf_inner self results 1 st) as [st1|e1] eqn:E; simpl.
    + intros H. destruct (IH _ H) as (-> & rs & r & Hin & Hlo & Hhi & Hz).
      split; [reflexivity|]. exists rs, r. auto.
    + intros [= <-].
      destruct (rrf_inner_raises _ _ _ _ _ E) as (-> & r & Hlo & Hhi & Hz).
      split; [reflexivity|]. exists results, r.
      repeat split; [auto | lia | lia | exact Hz].
Qed.

(** [_reciprocal_rank_fusion] fails in one way only: a denominator
    [k_rrf + r] is zero at a rank [r] that one of the lists has. *)
Lemma rrf_fusion_raises (self : ResultFusion)
    (result_sets : list (list SearchResult)) (e : exn) :
  _reciprocal_rank_fusion self result_sets = Raise e ->
  e = ZeroDivisionError
  /\ exists results r,
       In results result_sets /\ (1 <= r)%nat /\ (r <= length results)%nat
       /\ k_rrf self + inject_Z (Z.of_nat r) == 0.
Proof.
  unfold _reciprocal_rank_fusion.
  destruct (rrf_outer self result_sets ([], [])) as [[scores docs]|e1] eqn:E;
    simpl.
  - destruct (rrf_outer_facts _ _ _ _ E) as [Hinv _].
    destruct Hinv as (Hnd & Hkeys & Hdocs); [repeat split; constructor|].
    simpl in *.
    destruct (rrf_results_spec docs scores Hdocs) as (pre & Hpre & _).
    { intros key Hkey. rewrite <- Hkeys. exact Hkey. }
    unfold ODict.items. rewrite Hpre. simpl. discriminate.
  - intros [= <-]. apply (rrf_outer_raises _ _ _ _ E).
Qed.

(** With a non-negative [k_rrf] no denominator vanishes. *)
Lemma rrf_fusion_total (self : ResultFusion)
    (result_sets : list (list SearchResult)) :
  0 <= k_rrf self ->
  exists out, _reciprocal_rank_fusion self result_sets = Ok out.
Proof.
  intros Hk. unfold _reciprocal_rank_fusion.
  destruct (rrf_outer_ok self result_sets ([], []) Hk) as [[scores docs] E].
  rewrite E. simpl.
  destruct (rrf_outer_facts _ _ _ _ E) as [Hinv _].
  destruct Hinv as (Hnd & Hkeys & Hdocs); [repeat split; constructor|].
  simpl in *.
  destruct (rrf_results_spec docs scores Hdocs) as (pre & Hpre & _).
  { intros key Hkey. rewrite <- Hkeys. exact Hkey. }
  unfold ODict.items. rewrite Hpre. simpl. eauto.
Qed.

End RRFFacts.

(** ** Fusion: main results *)

Section FusionResults.

Import Models ResultFusion.
Local Open Scope Q_scope.

Lemma same_ranks_length (a b : list (list SearchResult)) :
  same_ranks a b -> length a = length b.
Proof.
  unfold same_ranks. intros H.
  rewrite <- (length_map (map document) a), H. apply length_map.
Qed.

Lemma ranking_documents (results : list SearchResult) :
  ranking results = map id (map document results).
Proof. unfold ranking. rewrite List.map_map. reflexivity. Qed.

Lemma fuse_two_or_more (self : ResultFusion)
    (result_sets : list (list SearchResult)) :
  (2 <= length result_sets)%nat ->
  fuse self result_sets
  = if String.eqb (fusion_strategy self) "rrf"
    then _reciprocal_rank_fusion self result_sets
    else _weighted_fusion self result_sets.
Proof.
  intros Hlen. destruct result_sets as [|a [|b rest]]; simpl in Hlen; try lia.
  unfold fuse.
  destruct (String.eqb (fusion_strategy self) "weighted") eqn:Ew.
  - apply String.eqb_eq in Ew. rewrite Ew. reflexivity.
  - destruct (String.eqb (fusion_strategy self) "rrf"); reflexivity.
Qed.

Lemma weighted_fusion_total (self : ResultFusion)
    (result_sets : list (list SearchResult)) :
  normalize_scores self = Some false ->
  exists out, _weighted_fusion self result_sets = Ok out.
Proof.
  intros Hattr. unfold _weighted_fusion.
  edestruct (weighted_loop_total self) as [fused ->]; [exact Hattr|].
  simpl. eauto.
Qed.

(** C2.  With the default configuration (weighted strategy, score
    normalisation enabled) fusing the two sample lists does not return the
    merged list: the name [normalize_scores] is bound to the boolean of the
    configuration, the call [self.normalize_scores(...)] raises
    [TypeError], and so does the call of the method in the test suite. *)
Theorem weighted_fusion_default_raises :
  normalize_scores (__init__ empty_config) = Some true
  /\ fuse (__init__ empty_config) Fixtures.sample_results = Raise TypeError
  /\ fuse (__init__ Fixtures.test_config) Fixtures.sample_results
     = Raise TypeError
  /\ call (getattr_normalize_scores (__init__ Fixtures.test_config))
       Fixtures.results1
     = Raise TypeError.
Proof. repeat split; reflexivity. Qed.

(** C5.  Reciprocal rank fusion reads ranks only.  [k_rrf] defaults to 10.
    Two collections that list the same documents at the same positions are
    fused to the same result whatever their scores, and to the same
    ranking through [fuse].  Whenever the fusion returns, the fused list
    is in descending order of score, holds every document of the input
    lists once and no other document, and the score of each document is
    the sum over all lists of [1 / (k_rrf + r)] for its 1-based ranks [r].
    It returns for every non-negative [k_rrf]; it fails to return only
    with [ZeroDivisionError], when [k_rrf + r] is zero at a rank [r] that
    one of the lists has. *)
Theorem rrf_depends_on_ranks_only :
  k_rrf (__init__ empty_config) = 10
  /\ (forall (self : ResultFusion) (a b : list (list SearchResult)),
        same_ranks a b ->
        _reciprocal_rank_fusion self a = _reciprocal_rank_fusion self b
        /\ (fusion_strategy self = "rrf"%string ->
            ranking <$> fuse self a = ranking <$> fuse self b))
  /\ forall (self : ResultFusion) (a : list (list SearchResult)),
       (forall out,
          _reciprocal_rank_fusion self a = Ok out ->
          sorted_desc out
          /\ NoDup (ranking out)
          /\ (forall doc_id, In doc_id (ranking out) <-> occurs_in doc_id a)
          /\ Forall (fun r => score r
                              == rrf_total (k_rrf self) (id (document r)) a)
               out)
       /\ (0 <= k_rrf self ->
           exists out, _reciprocal_rank_fusion self a = Ok out)
       /\ (forall e,
             _reciprocal_rank_fusion self a = Raise e ->
             e = ZeroDivisionError
             /\ exists results r,
                  In results a /\ (1 <= r)%nat /\ (r <= length results)%nat
                  /\ k_rrf self + inject_Z (Z.of_nat r) == 0).
Proof.
  split; [reflexivity|]. split.
  - intros self a b Hsame.
    split; [apply rrf_scores_blind, Hsame|].
    intros Hrrf. pose proof (same_ranks_length _ _ Hsame) as Hlen.
    destruct a as [|a1 [|a2 a]], b as [|b1 [|b2 b]]; simpl in Hlen;
      try discriminate.
    + reflexivity.
    + unfold fuse. simpl. f_equal. rewrite !ranking_documents.
      unfold same_ranks in Hsame. simpl in Hsame. congruence.
    + rewrite !fuse_two_or_more by (simpl; lia).
      rewrite Hrrf. simpl.
      rewrite (rrf_scores_blind self _ _ Hsame). reflexivity.
  - intros self a. split; [|split].
    + intros out Hout.
      destruct (rrf_fusion_returns _ _ _ Hout) as (Hs & Hnd & Htot).
      repeat split; [exact Hs | exact Hnd | | | exact Htot];
        apply (rrf_fusion_keys _ _ _ Hout).
    + apply rrf_fusion_total.
    + apply rrf_fusion_raises.
Qed.

Lemma rrf_depends_on_ranks_only_witness :
  same_ranks Fixtures.sample_results Fixtures.rescored_results
  /\ _reciprocal_rank_fusion (__init__ Fixtures.rrf_config)
       Fixtures.sample_results
     = _reciprocal_rank_fusion (__init__ Fixtures.rrf_config)
         Fixtures.rescored_results
  /\ 0 <= k_rrf (__init__ Fixtures.rrf_config)
  /\ exists out,
       _reciprocal_rank_fusion (__init__ Fixtures.rrf_config)
         Fixtures.sample_results = Ok out
       /\ ranking out = ["2"; "1"; "3"]%string
       /\ sorted_desc out
       /\ (In "3"%string (ranking out)
           <-> occurs_in "3" Fixtures.sample_results)
       /\ Forall (fun r => score r
                           == rrf_total 10 (id (document r))
                                Fixtures.sample_results) out.
Proof.
  destruct rrf_depends_on_ranks_only as (_ & Hblind & Hfused).
  split; [reflexivity|].
  split; [apply Hblind; reflexivity|].
  assert (Hk : 0 <= k_rrf (__init__ Fixtures.rrf_config)) by discriminate.
  split; [exact Hk|].
  destruct (Hfused (__init__ Fixtures.rrf_config) Fixtures.sample_results)
    as (Hout & Hreturns & _).
  destruct (Hreturns Hk) as [out Hfound].
  exists out. split; [exact Hfound|].
  destruct (Hout out Hfound) as (Hs & _ & Hcov & Htot).
  split; [|split; [exact Hs|]; split; [apply Hcov | exact Htot]].
  assert (Hval : Ok out
                 = _reciprocal_rank_fusion (__init__ Fixtures.rrf_config)
                     Fixtures.sample_results)
    by (symmetry; exact Hfound).
  vm_compute in Hval. injection Hval as ->. reflexivity.
Defined.

(** C10.  Whenever [fuse] returns for two or more lists, under either
    strategy, no document id occurs twice in the returned list; it does
    return under the RRF strategy with a non-negative [k_rrf], and under
    the weighted strategy when score normalisation is switched off. *)
Theorem fuse_ids_unique (self : ResultFusion)
    (result_sets : list (list SearchResult)) :
  (2 <= length result_sets)%nat ->
  (forall out, fuse self result_sets = Ok out -> NoDup (ranking out))
  /\ (fusion_strategy self = "rrf"%string -> 0 <= k_rrf self ->
      exists out, fuse self result_sets = Ok out)
  /\ (fusion_strategy self <> "rrf"%string ->
      normalize_scores self = Some false ->
      exists out, fuse self result_sets = Ok out).
Proof.
  intros Hlen. rewrite (fuse_two_or_more _ _ Hlen). split; [|split].
  - intros out. destruct (String.eqb _ _).
    + intros H. apply (rrf_fusion_returns _ _ _ H).
    + apply weighted_fusion_NoDup.
  - intros -> Hk. simpl. apply rrf_fusion_total, Hk.
  - intros Hne Hattr. destruct (String.eqb _ _) eqn:E.
    + apply String.eqb_eq in E. contradiction.
    + apply weighted_fusion_total, Hattr.
Qed.

Lemma fuse_ids_unique_witness :
  (2 <= length Fixtures.repeated_results)%nat
  /\ (exists out,
        fuse (__init__ Fixtures.raw_config) Fixtures.repeated_results = Ok out
        /\ NoDup (ranking out))
  /\ (exists out,
        fuse (__init__ Fixtures.rrf_config) Fixtures.repeated_results = Ok out
        /\ NoDup (ranking out)).
Proof.
  assert (Hlen : (2 <= length Fixtures.repeated_results)%nat)
    by (simpl; lia).
  split; [exact Hlen|]. split.
  - destruct (fuse_ids_unique (__init__ Fixtures.raw_config) _ Hlen)
      as (Hnd & _ & Hret).
    destruct Hret as [out Hout]; [discriminate | reflexivity |].
    exists out. split; [exact Hout | apply Hnd, Hout].
  - destruct (fuse_ids_unique (__init__ Fixtures.rrf_config) _ Hlen)
      as (Hnd & Hret & _).
    destruct Hret as [out Hout]; [reflexivity | discriminate |].
    exists out. split; [exact Hout | apply Hnd, Hout].
Defined.

End FusionResults.

(** ** Batch encoding *)

Section EncodeBatchFacts.

Import Models Semantic.

Context (model_encode : string -> vector).

Lemma assign_insert_commute (pairs : list (nat * vector)) (base : list vector)
    (i : nat) (x : vector) :
  Forall (fun p => S i <= fst p) pairs ->
  <[i := x]> (assign pairs base) = assign pairs (<[i := x]> base).
Proof.
  unfold assign. intros Hall. revert base.
  induction Hall as [|[j y] pairs Hj Hall IH]; intros base; simpl in *.
  - reflexivity.
  - rewrite IH. f_equal. apply list_insert_insert_ne. lia.
Qed.

Lemma length_assign (pairs : list (nat * vector)) (base : list vector) :
  length (assign pairs base) = length base.
Proof.
  unfold assign. revert base.
  induction pairs as [|[j y] pairs IH]; intros base; simpl.
  - reflexivity.
  - rewrite IH. apply length_insert.
Qed.

(** The three lists of the first loop: the uncached texts are the texts
    without a hit, every recorded index is at least [i], and there is one
    index per uncached text. *)
Lemma scan_shape (self : EmbeddingGenerator) (texts : list string) (i : nat) :
  let '(cached_embeddings, uncached_texts, uncached_indices) :=
    scan self texts i in
  Forall (fun p => i <= fst p) cached_embeddings
  /\ Forall (fun j => i <= j) uncached_indices
  /\ length uncached_indices = length uncached_texts
  /\ uncached_texts
     = List.filter (fun t => match cached self t with
                             | Some _ => false
                             | None => true
                             end) texts.
Proof.
  revert i. induction texts as [|t texts IH]; intros i; simpl.
  - repeat split; constructor.
  - specialize (IH (S i)).
    destruct (scan self texts (S i)) as [[c u] ui].
    destruct IH as (Hc & Hui & Hlen & Hu).
    assert (Hc' : Forall (fun p => i <= fst p) c).
    { eapply List.Forall_impl; [|exact Hc]. simpl. lia. }
    assert (Hui' : Forall (fun j => i <= j) ui).
    { eapply List.Forall_impl; [|exact Hui]. simpl. lia. }
    destruct (cached self t) as [e|]; repeat split; simpl; auto.
    + congruence.
Qed.

(** The two assignment loops fill the window of [base] that starts at [i]
    with the embeddings of [texts], in order, and touch nothing else. *)
Lemma scan_assign (self : EmbeddingGenerator) (texts : list string) (i : nat)
    (base : list vector) :
  i + length texts <= length base ->
  let '(cached_embeddings, uncached_texts, uncached_indices) :=
    scan self texts i in
  assign (combine uncached_indices (map model_encode uncached_texts))
    (assign cached_embeddings base)
  = take i base ++ map (embedding_of model_encode self) texts
      ++ drop (i + length texts) base.
Proof.
  revert i base. induction texts as [|t texts IH]; intros i base Hlen; simpl.
  - rewrite Nat.add_0_r. symmetry. apply take_drop.
  - simpl in Hlen.
    pose proof (scan_shape self texts (S i)) as Hshape.
    specialize (IH (S i)).
    destruct (scan self texts (S i)) as [[c u] ui].
    destruct Hshape as (Hc & _ & _ & _).
    assert (Hi : i < length base) by lia.
    unfold embedding_of at 1.
    destruct (cached self t) as [e|] eqn:E; simpl.
    + change (fold_left _ c (<[i:=e]> base)) with (assign c (<[i:=e]> base)).
      specialize (IH (<[i:=e]> base)). rewrite length_insert in IH.
      rewrite IH by lia.
      rewrite drop_insert_lt by lia.
      rewrite (take_S_r _ i e) by (apply list_lookup_insert_eq; exact Hi).
      rewrite take_insert_ge by lia.
      rewrite <- app_assoc. simpl.
      replace (i + S (length texts)) with (S i + length texts) by lia.
      reflexivity.
    + change (fold_left ?f (combine ui ?l) ?b)
        with (assign (combine ui l) b).
      rewrite assign_insert_commute by exact Hc.
      specialize (IH (<[i:=model_encode t]> base)).
      rewrite length_insert in IH. rewrite IH by lia.
      rewrite drop_insert_lt by lia.
      rewrite (take_S_r _ i (model_encode t))
        by (apply list_lookup_insert_eq; exact Hi).
      rewrite take_insert_ge by lia.
      rewrite <- app_assoc. simpl.
      replace (i + S (length texts)) with (S i + length texts) by lia.
      reflexivity.
Qed.

Lemma cached_cache (self : EmbeddingGenerator) (text : string) :
  cache_wf self -> cached self text = embedding_cache self !! text.
Proof.
  unfold cache_wf, cached. destruct (cache_enabled self); [reflexivity|].
  intros H. rewrite H by reflexivity. symmetry. apply lookup_empty.
Qed.

(** C8.  [encode_batch] returns one embedding per input text, the one at
    position [i] being the embedding of [texts[i]] (the cached one on a
    hit, the model's otherwise), and the texts sent to the model are
    exactly the inputs that are not in the cache, so none of them is in
    the cache. *)
Theorem encode_batch_order_and_misses (self : EmbeddingGenerator)
    (texts : list string) :
  cache_wf self ->
  let '(embeddings, _, calls) := encode_batch model_encode self texts in
  length embeddings = length texts
  /\ (forall (i : nat) (text : string),
        texts !! i = Some text ->
        embeddings !! i = Some (embedding_of model_encode self text))
  /\ concat calls = misses self texts
  /\ Forall (fun text => embedding_cache self !! text = None) (concat calls).
Proof.
  intros Hwf. unfold encode_batch.
  pose proof (scan_shape self texts 0) as Hshape.
  pose proof (scan_assign self texts 0
                (replicate (length texts)
                   (replicate (embedding_dim self) 0%Q))) as Hassign.
  destruct (scan self texts 0) as [[c u] ui].
  destruct Hshape as (_ & _ & _ & Hu).
  rewrite length_replicate in Hassign. specialize (Hassign (le_n _)).
  rewrite drop_ge in Hassign by (rewrite length_replicate; simpl; lia).
  simpl in Hassign. rewrite app_nil_r in Hassign.
  assert (Hmiss : u = misses self texts).
  { rewrite Hu. unfold misses. apply List.filter_ext. intros t.
    rewrite (cached_cache self t Hwf). reflexivity. }
  assert (Hemb :
    assign (combine ui (match u with
                        | [] => []
                        | _ => map model_encode u
                        end))
      (assign c (replicate (length texts)
                   (replicate (embedding_dim self) 0%Q)))
    = map (embedding_of model_encode self) texts).
  { destruct u; exact Hassign. }
  assert (Hcalls : concat (match u with [] => [] | _ => [u] end)
                   = misses self texts).
  { rewrite <- Hmiss. destruct u; simpl; [reflexivity|].
    rewrite app_nil_r. reflexivity. }
  assert (Hgoal : forall (embeddings : list vector) (calls : list (list string)),
    embeddings = map (embedding_of model_encode self) texts ->
    concat calls = misses self texts ->
    length embeddings = length texts
    /\ (forall (i : nat) (text : string),
          texts !! i = Some text ->
          embeddings !! i = Some (embedding_of model_encode self text))
    /\ concat calls = misses self texts
    /\ Forall (fun text => embedding_cache self !! text = None) (concat calls)).
  { intros embeddings calls -> Hc.
    split; [apply length_map|].
    split; [intros i text Hi; rewrite list_lookup_fmap, Hi; reflexivity|].
    split; [exact Hc|].
    rewrite Hc. unfold misses. apply List.Forall_forall.
    intros t Ht. apply List.filter_In in Ht as [_ Ht].
    destruct (embedding_cache self !! t); [discriminate | reflexivity]. }
  destruct u as [|t0 u]; apply Hgoal; assumption.
Qed.

End EncodeBatchFacts.

(** The hypothesis of C8 holds of every generator in use: of a new one,
    and after each call. *)
Lemma cache_wf_new (dim : nat) (enabled : bool) :
  Semantic.cache_wf (Semantic.new_generator dim enabled).
Proof. intros _. reflexivity. Qed.

Lemma cache_wf_encode (model_encode : string -> Models.vector)
    (self : Semantic.EmbeddingGenerator) (text : string) :
  Semantic.cache_wf self ->
  Semantic.cache_wf (snd (fst (Semantic.encode model_encode self text))).
Proof.
  unfold Semantic.cache_wf, Semantic.encode. intros Hwf.
  destruct (Semantic.cached self text); simpl; [exact Hwf|].
  destruct (Semantic.cache_enabled self) eqn:E; simpl.
  - rewrite E. discriminate.
  - intros _. apply Hwf. reflexivity.
Qed.

Lemma cache_wf_encode_batch (model_encode : string -> Models.vector)
    (self : Semantic.EmbeddingGenerator) (texts : list string) :
  Semantic.cache_wf self ->
  Semantic.cache_wf
    (snd (fst (Semantic.encode_batch model_encode self texts))).
Proof.
  unfold Semantic.cache_wf, Semantic.encode_batch. intros Hwf.
  destruct (Semantic.scan self texts 0) as [[c u] ui].
  destruct u; simpl; [exact Hwf|].
  destruct (Semantic.cache_enabled self) eqn:E; simpl.
  - rewrite E. discriminate.
  - intros _. apply Hwf. reflexivity.
Qed.

Lemma encode_batch_order_and_misses_witness :
  Semantic.cache_wf SemanticFixtures.warm_generator
  /\ fst (fst (Semantic.encode_batch SemanticFixtures.toy_model
                 SemanticFixtures.warm_generator SemanticFixtures.batch))
       !! 1%nat
     = Some (Semantic.embedding_of SemanticFixtures.toy_model
               SemanticFixtures.warm_generator "bb").
Proof.
  assert (Hwf : Semantic.cache_wf SemanticFixtures.warm_generator)
    by (intros H; discriminate H).
  split; [exact Hwf|].
  pose proof (encode_batch_order_and_misses SemanticFixtures.toy_model
                SemanticFixtures.warm_generator SemanticFixtures.batch Hwf)
    as H.
  destruct (Semantic.encode_batch _ _ _) as [[embeddings g] calls].
  destruct H as (_ & Hpos & _). apply (Hpos 1%nat). reflexivity.
Defined.

(** ** Query preprocessing *)

Section PreprocessingFacts.

Import Preprocessing.

Context (nltk : Nltk).

(** [preprocess] never reads the flag [remove_stopwords]: the stopwords it
    drops are those of the set built by [__init__]. *)
Lemma preprocess_ignores_flag (self : TextPreprocessor) (flag : bool)
    (text : string) :
  preprocess nltk (set_remove_stopwords self flag) text
  = preprocess nltk self text.
Proof. reflexivity. Qed.

Lemma set_remove_stopwords_restore (self : TextPreprocessor) (flag : bool) :
  set_remove_stopwords (set_remove_stopwords self flag) (remove_stopwords self)
  = self.
Proof. destruct self. reflexivity. Qed.

(** Query mode returns the tokens of document mode, for every text. *)
Lemma query_preprocess_as_document (self : TextPreprocessor) (text : string) :
  query_preprocess nltk self text = (preprocess nltk self text, self).
Proof.
  unfold query_preprocess.
  destruct (String.eqb text "") eqn:E.
  - unfold preprocess. rewrite E. reflexivity.
  - cbv zeta. rewrite preprocess_ignores_flag.
    rewrite set_remove_stopwords_restore. reflexivity.
Qed.

End PreprocessingFacts.

(** C1.  On the query [the cat], with the configuration of the test suite:
    the pipeline without stopword removal keeps [the] and [cat]; document
    mode drops the stopword [the]; and query mode returns the tokens of
    document mode, the stopword dropped, leaving the preprocessor as it
    found it. *)
Theorem query_mode_drops_stopwords :
  Preprocessing.preprocess_keeping_stopwords TextFixtures.plain_nltk
    TextFixtures.query_preprocessor "the cat"
  = ["the"; "cat"]%string
  /\ Preprocessing.preprocess TextFixtures.plain_nltk
       TextFixtures.query_preprocessor "the cat"
     = ["cat"]%string
  /\ Preprocessing.query_preprocess TextFixtures.plain_nltk
       TextFixtures.query_preprocessor "the cat"
     = (["cat"]%string, TextFixtures.query_preprocessor).
Proof.
  split; [reflexivity|]. split; [reflexivity|].
  rewrite query_preprocess_as_document. reflexivity.
Qed.

(** ** Lexical index *)

Section BM25Facts.

Import Models BM25.

Context (preprocess : string -> list string).

Lemma update_avg_length_fields (self : BM25Indexer) :
  documents (_update_avg_length self) = documents self
  /\ tokenized_corpus (_update_avg_length self) = tokenized_corpus self
  /\ doc_ids (_update_avg_length self) = doc_ids self
  /\ doc_lengths (_update_avg_length self) = doc_lengths self.
Proof.
  unfold _update_avg_length.
  destruct (size (doc_lengths self) =? 0)%nat; repeat split; reflexivity.
Qed.

(** Adding a document whose id is present changes nothing. *)
Lemma add_document_present (self : BM25Indexer) (doc : Document) :
  is_Some (documents self !! id doc) ->
  add_document preprocess self doc = self.
Proof.
  intros [d Hd]. unfold add_document. rewrite Hd. reflexivity.
Qed.

Lemma add_document_aligned (self : BM25Indexer) (doc : Document) :
  aligned self -> aligned (add_document preprocess self doc).
Proof.
  unfold aligned, add_document. intros H.
  destruct (documents self !! id doc) eqn:E; [exact H|].
  destruct (update_avg_length_fields
    {| documents := <[id (set_tokens doc (preprocess (content doc)))
                      := set_tokens doc (preprocess (content doc))]>
                      (documents self);
       tokenized_corpus := tokenized_corpus self ++ [preprocess (content doc)];
       doc_ids := doc_ids self ++ [id (set_tokens doc (preprocess (content doc)))];
       doc_lengths := <[id (set_tokens doc (preprocess (content doc)))
                        := length (preprocess (content doc))]> (doc_lengths self);
       avg_doc_length := avg_doc_length self |}) as (-> & -> & _).
  simpl. rewrite map_size_insert_None by exact E.
  rewrite length_app. simpl. lia.
Qed.

Lemma add_documents_aligned (docs : list Document) (self : BM25Indexer) :
  aligned self -> aligned (add_documents preprocess self docs).
Proof.
  unfold add_documents. revert self.
  induction docs as [|doc docs IH]; intros self H; simpl; [exact H|].
  apply IH, add_document_aligned, H.
Qed.

Lemma indexed_invariant (self : BM25Searcher) :
  indexed preprocess self ->
  aligned (indexer self)
  /\ (bm25_model self = None -> tokenized_corpus (indexer self) = []).
Proof.
  induction 1 as [k1 b eps | self docs Hidx [Hal Hnone]].
  - split; [|reflexivity]. unfold aligned. simpl. apply map_size_empty.
  - split.
    + simpl. apply add_documents_aligned, Hal.
    + simpl.
      destruct (tokenized_corpus (add_documents preprocess (indexer self) docs));
        [reflexivity | discriminate].
Qed.

Lemma count_mentions (term : string) (docs : list (list string)) (n : nat) :
  fold_left (fun count doc_tokens =>
               if mentions term doc_tokens then S count else count) docs n
  = n + containing term docs.
Proof.
  unfold containing. revert n.
  induction docs as [|doc docs IH]; intros n; simpl; [lia|].
  rewrite IH, filter_cons.
  destruct (mentions term doc); case_decide; try congruence; simpl; lia.
Qed.

(** C6 (amended).  For every searcher obtained by indexing, with [N] the
    number of indexed documents: [get_document_frequency] of a term is the
    number of indexed documents whose token list contains the lower-cased
    term, and [get_idf] is [ln ((N - df + 0.5) / (df + 0.5))] when the
    document frequency [df] is positive, and 0 when it is 0. *)
Theorem document_frequency_and_idf (self : BM25Searcher) (term : string) :
  indexed preprocess self ->
  document_count (indexer self) = length (tokenized_corpus (indexer self))
  /\ get_document_frequency self term
     = containing (Str.lower term) (tokenized_corpus (indexer self))
  /\ get_idf self term
     = if (get_document_frequency self term =? 0)%nat then 0%R
       else idf_formula (length (tokenized_corpus (indexer self)))
              (get_document_frequency self term).
Proof.
  intros Hidx. destruct (indexed_invariant self Hidx) as [Hal Hnone].
  split; [exact Hal|]. split.
  - unfold get_document_frequency. destruct (bm25_model self).
    + rewrite count_mentions. reflexivity.
    + rewrite Hnone by reflexivity. reflexivity.
  - unfold get_idf. unfold document_count. rewrite Hal.
    destruct (bm25_model self) eqn:E; [reflexivity|].
    unfold get_document_frequency. rewrite E. reflexivity.
Qed.

End BM25Facts.

Lemma document_frequency_and_idf_witness :
  BM25.get_document_frequency TextFixtures.cat_index "Cat"
  = BM25.containing "cat"
      (BM25.tokenized_corpus (BM25.indexer TextFixtures.cat_index)).
Proof.
  apply (document_frequency_and_idf
           (Preprocessing.preprocess TextFixtures.plain_nltk
              TextFixtures.query_preprocessor)
           TextFixtures.cat_index "Cat").
  apply BM25.indexed_more, BM25.indexed_new.
Defined.

(** C6, without the two amendments, fails.  In the index over the document [cat], the
    term [dog] occurs in no document and [get_idf] returns 0, not
    [ln ((1 - 0 + 0.5) / (0 + 0.5))]; in the index built without
    lower-casing over the document [NLP], the term [NLP] is in the token
    list of one document and [get_document_frequency] returns 0. *)
Lemma document_frequency_and_idf_counterexample :
  BM25.get_idf TextFixtures.cat_index "dog"
  <> BM25.idf_formula
       (BM25.document_count (BM25.indexer TextFixtures.cat_index))
       (BM25.get_document_frequency TextFixtures.cat_index "dog")
  /\ BM25.get_document_frequency TextFixtures.nlp_index "NLP"
     <> BM25.containing "NLP"
          (BM25.tokenized_corpus (BM25.indexer TextFixtures.nlp_index)).
Proof.
  split.
  - replace (BM25.get_idf TextFixtures.cat_index "dog") with 0%R
      by reflexivity.
    replace (BM25.document_count (BM25.indexer TextFixtures.cat_index))
      with 1%nat by reflexivity.
    replace (BM25.get_document_frequency TextFixtures.cat_index "dog")
      with 0%nat by reflexivity.
    unfold BM25.idf_formula. simpl INR.
    pose proof (ln_increasing 1 ((1 - 0 + 0.5) / (0 + 0.5))) as Hln.
    rewrite ln_1 in Hln.
    assert (Hpos : (0 < ln ((1 - 0 + 0.5) / (0 + 0.5)))%R)
      by (apply Hln; lra).
    intros H. rewrite <- H in Hpos. exact (Rlt_irrefl _ Hpos).
  - discriminate.
Qed.

(** C4.  Handing the document with id [1] to both indexes a second time:
    the lexical index is unchanged, but the vector index holds a second
    row and a second doc-id entry for it. *)
Theorem semantic_insert_duplicates :
  BM25.index_documents
    (Preprocessing.preprocess TextFixtures.plain_nltk
       TextFixtures.query_preprocessor)
    TextFixtures.cat_index [Models.new_Document "1" "cat"]
  = TextFixtures.cat_index
  /\ Semantic.doc_ids (Semantic.vector_index SemanticFixtures.indexed_once)
     = ["1"]%string
  /\ Semantic.doc_ids (Semantic.vector_index SemanticFixtures.indexed_twice)
     = ["1"; "1"]%string
  /\ Semantic.index (Semantic.vector_index SemanticFixtures.indexed_twice)
     = [[3%Q]; [3%Q]]
  /\ size (Semantic.documents SemanticFixtures.indexed_twice) = 1%nat.
Proof. repeat split; vm_compute; reflexivity. Qed.

Lemma semantic_index_appends (model_encode : string -> Models.vector)
    (self : Semantic.SemanticSearcher) (docs : list Models.Document) :
  Semantic.doc_ids
    (Semantic.vector_index (Semantic.index_documents model_encode self docs))
  = Semantic.doc_ids (Semantic.vector_index self) ++ map Models.id docs.
Proof.
  unfold Semantic.index_documents. destruct docs as [|doc docs].
  - rewrite app_nil_r. reflexivity.
  - destruct (Semantic.encode_batch _ _ _) as [[embeddings g] calls].
    reflexivity.
Qed.

(** ** Query expansion and the orchestrator *)

Section HybridFacts.

Import Models Expansion Hybrid.

Context (list_of_set : list string -> list string)
        (bm25_search semantic_search : Query -> list SearchResult).

Lemma run_expanders_nothing (original_text : string)
    (strategies : list (Query -> outcome Query)) (query query' : Query)
    (terms terms' : list string) :
  run_expanders original_text strategies query terms = Ok (query', terms') ->
  terms' = [] ->
  terms = [] /\ (expanded_terms query = [] -> expanded_terms query' = []).
Proof.
  revert query terms.
  induction strategies as [|expander rest IH]; intros query terms; simpl.
  - intros [= <- <-] ->. auto.
  - destruct (expander query) as [expanded_query|e]; simpl; [|discriminate].
    intros Hrun Hnil. destruct (IH _ _ Hrun Hnil) as [Happ Hkeep].
    apply app_eq_nil in Happ as [-> Hexp]. split; [reflexivity|].
    intros _. apply Hkeep. exact Hexp.
Qed.

(** A query that comes back from [expand] with expanded terms carries the
    original text followed by a blank and the terms. *)
Lemma expand_rewrites_text (self : QueryExpander) (query query' : Query) :
  expand list_of_set self query = Ok query' ->
  expanded_terms query = [] ->
  expanded_terms query' <> [] ->
  text query' = (text query ++ " " ++ Str.join (expanded_terms query'))%string.
Proof.
  unfold expand. destruct (enabled self); simpl.
  - destruct (run_expanders (text query) (expanders self) query [])
      as [[q1 terms]|e] eqn:Hrun; simpl; [|discriminate].
    destruct terms as [|t terms].
    + intros [= <-] Hq Hne. exfalso. apply Hne.
      apply (run_expanders_nothing _ _ _ _ _ _ Hrun eq_refl). exact Hq.
    + intros [= <-] _ _. reflexivity.
  - intros [= <-] Hq Hne. contradiction.
Qed.

Lemma string_length_append (s t : string) :
  String.length (s ++ t) = String.length s + String.length t.
Proof. induction s as [|c s IH]; simpl; [reflexivity | rewrite IH; reflexivity]. Qed.

Lemma append_blank_differs (s t : string) : (s ++ " " ++ t)%string <> s.
Proof.
  intros H. apply (f_equal String.length) in H.
  rewrite !string_length_append in H. simpl in H. lia.
Qed.

(** Both lexical searches of an expanded query receive the expanded text,
    and the text as typed is not searched. *)
Lemma search_bm25_inputs (self : HybridSearch) (query_text : string)
    (k : nat) (min_score : Q) (filters : option (gmap string string))
    (query' : Query) :
  is_indexed self = true ->
  expand list_of_set (query_expander self)
    (new_Query query_text k min_score (default ∅ filters)) = Ok query' ->
  expanded_terms query' <> [] ->
  bm25_inputs
    (snd (search list_of_set bm25_search semantic_search self
            query_text k min_score filters))
  = [text query'; text query']
  /\ text query' <> query_text.
Proof.
  intros Hidx Hexp Hne. split.
  - unfold search. rewrite Hidx, Hexp. simpl.
    destruct (expanded_terms query'); [contradiction|].
    destruct (ResultFusion.fuse _ _); reflexivity.
  - rewrite (expand_rewrites_text _ _ _ Hexp eq_refl Hne).
    apply append_blank_differs.
Qed.

(** C9.  While [is_indexed] is unset, [search] returns the empty list for
    every query text, [k], [min_score] and filters, raising nothing and
    logging one warning. *)
Theorem search_unindexed_returns_empty (self : HybridSearch)
    (query_text : string) (k : nat) (min_score : Q)
    (filters : option (gmap string string)) :
  is_indexed self = false ->
  search list_of_set bm25_search semantic_search self
    query_text k min_score filters
  = (Ok [], [LogWarning "Search attempted before indexing"]).
Proof. intros H. unfold search. rewrite H. reflexivity. Qed.

End HybridFacts.

Lemma search_unindexed_returns_empty_witness :
  Hybrid.is_indexed HybridFixtures.fresh_engine = false
  /\ fst (Hybrid.search HybridFixtures.first_occurrences
            HybridFixtures.bm25_stub HybridFixtures.semantic_stub
            HybridFixtures.fresh_engine "car" 10 0%Q None)
     = Ok [].
Proof.
  split; [reflexivity|].
  rewrite (search_unindexed_returns_empty HybridFixtures.first_occurrences
             HybridFixtures.bm25_stub HybridFixtures.semantic_stub
             HybridFixtures.fresh_engine "car" 10 0%Q None eq_refl).
  reflexivity.
Defined.

(** C3.  On the indexed engine, the query [car] is expanded by the term
    [auto]; the lexical index is then searched twice, both times with the
    expanded text [car auto], and never with the text [car] as typed. *)
Theorem expanded_search_repeats_bm25_input :
  Models.expanded_terms
    <$> Expansion.expand HybridFixtures.first_occurrences
          (Hybrid.query_expander HybridFixtures.indexed_engine)
          (Models.new_Query "car" 10 0%Q ∅)
  = Ok ["auto"%string]
  /\ Hybrid.bm25_inputs
       (snd (Hybrid.search HybridFixtures.first_occurrences
               HybridFixtures.bm25_stub HybridFixtures.semantic_stub
               HybridFixtures.indexed_engine "car" 10 0%Q None))
     = ["car auto"; "car auto"]%string.
Proof. split; vm_compute; reflexivity. Qed.

(** * Further properties of the sources *)

(** ** fusion.py *)

Section FusionMore.

Import Models ResultFusion.
Local Open Scope Q_scope.

Lemma sum_shift (ws : list Q) (a : Q) :
  fold_left Qplus ws a == a + fold_left Qplus ws 0.
Proof.
  revert a. induction ws as [|w ws IH]; intros a; simpl.
  - ring.
  - rewrite IH, (IH (0 + w)). ring.
Qed.

Lemma sum_scaled (ws : list Q) (t : Q) :
  sum (map (fun w => w / t) ws) == sum ws / t.
Proof.
  unfold sum. induction ws as [|w ws IH]; simpl.
  - unfold Qdiv. ring.
  - rewrite sum_shift, IH, (sum_shift ws (0 + w)). unfold Qdiv. ring.
Qed.

(** The weights are rescaled to sum to 1 when their total is positive,
    and are left as configured when it is not. *)
Theorem normalize_weights_sum (weights : list Q) :
  (0 < sum weights -> sum (normalize_weights weights) == 1)
  /\ (sum weights <= 0 -> normalize_weights weights = weights).
Proof.
  unfold normalize_weights. split.
  - intros Hpos. destruct (Qle_bool (sum weights) 0) eqn:E.
    + apply Qle_bool_iff in E. exfalso.
      exact (Qlt_irrefl _ (Qlt_le_trans _ _ _ Hpos E)).
    + rewrite sum_scaled. field. intros H0. rewrite H0 in Hpos.
      exact (Qlt_irrefl _ Hpos).
  - intros Hle. apply Qle_bool_iff in Hle. rewrite Hle. reflexivity.
Qed.

Lemma normalize_weights_sum_witness :
  sum (normalize_weights [4 # 10; 6 # 10; 2 # 10]) == 1.
Proof.
  apply (proj1 (normalize_weights_sum [4 # 10; 6 # 10; 2 # 10])).
  reflexivity.
Defined.

(** Result lists after the third take no part in weighted fusion. *)
Theorem weighted_fusion_first_three (self : ResultFusion)
    (a b c : list SearchResult) (rest : list (list SearchResult)) :
  _weighted_fusion self (a :: b :: c :: rest)
  = _weighted_fusion self [a; b; c].
Proof.
  unfold _weighted_fusion, normalize_weights.
  destruct rest; simpl firstn; destruct (Qle_bool _ 0); reflexivity.
Qed.

(** With score normalisation enabled, weighted fusion of two or more
    lists raises [TypeError], whatever the lists hold. *)
Theorem weighted_fusion_raises (self : ResultFusion)
    (result_sets : list (list SearchResult)) :
  normalize_scores self = Some true ->
  (2 <= length result_sets)%nat ->
  fusion_strategy self <> "rrf"%string ->
  fuse self result_sets = Raise TypeError.
Proof.
  intros Hattr Hlen Hne. rewrite (fuse_two_or_more _ _ Hlen).
  destruct (String.eqb _ _) eqn:E.
  - apply String.eqb_eq in E. contradiction.
  - apply weighted_fusion_not_callable; assumption.
Qed.

Lemma weighted_fusion_raises_witness :
  fuse (__init__ empty_config) [[]; []] = Raise TypeError.
Proof.
  apply weighted_fusion_raises; [reflexivity | simpl; lia | discriminate].
Defined.

(** With [k_rrf = -1] the first result of the first list divides by
    zero. *)
Theorem rrf_zero_division (self : ResultFusion) (first : SearchResult)
    (results : list SearchResult) (rest : list (list SearchResult)) :
  k_rrf self == -1 ->
  _reciprocal_rank_fusion self ((first :: results) :: rest)
  = Raise ZeroDivisionError.
Proof.
  intros Hk. unfold _reciprocal_rank_fusion. simpl.
  assert (E : Qeq_bool (k_rrf self + inject_Z (Z.of_nat 1)) 0 = true).
  { apply Qeq_bool_iff. rewrite Hk. reflexivity. }
  rewrite E. reflexivity.
Qed.

Lemma rrf_zero_division_witness :
  _reciprocal_rank_fusion
    (__init__ (mkHybridConfig (Some "rrf"%string) None None None None
                 (Some (-1))))
    Fixtures.sample_results
  = Raise ZeroDivisionError.
Proof. apply rrf_zero_division. reflexivity. Defined.

End FusionMore.

Section FusionCoverage.

Import Models ResultFusion.
Local Open Scope Q_scope.

Lemma accumulate_score (weight : Q) (fused : ODict.odict SearchResult)
    (r : SearchResult) (doc_id : string) :
  score_of (accumulate weight fused r) doc_id
  == score_of fused doc_id
     + (if String.eqb (id (document r)) doc_id then score r * weight else 0).
Proof.
  unfold accumulate, score_of.
  destruct (ODict.get fused (id (document r))) as [cur|] eqn:E;
    (destruct (String.eqb (id (document r)) doc_id) eqn:Eid;
     [ apply String.eqb_eq in Eid; subst doc_id;
       rewrite odict_get_set_eq, E; simpl; ring
     | apply String.eqb_neq in Eid;
       rewrite odict_get_set_ne by exact Eid; ring ]).
Qed.

Lemma accumulate_keys (weight : Q) (fused : ODict.odict SearchResult)
    (r : SearchResult) (doc_id : string) :
  In doc_id (ODict.keys (accumulate weight fused r))
  <-> In doc_id (ODict.keys fused) \/ doc_id = id (document r).
Proof.
  unfold accumulate.
  destruct (ODict.get fused (id (document r))); apply odict_keys_set_In.
Qed.

Lemma fold_accumulate_facts (weight : Q) (results : list SearchResult)
    (fused : ODict.odict SearchResult) (doc_id : string) :
  score_of (fold_left (accumulate weight) results fused) doc_id
  == score_of fused doc_id + list_contribution doc_id weight results
  /\ (In doc_id (ODict.keys (fold_left (accumulate weight) results fused))
      <-> In doc_id (ODict.keys fused)
          \/ exists r, In r results /\ id (document r) = doc_id).
Proof.
  revert fused. induction results as [|r results IH]; intros fused; simpl.
  - split; [ring|]. split; [auto|]. intros [H|(r & [] & _)]. exact H.
  - destruct (IH (accumulate weight fused r)) as [Hs Hk]. split.
    + rewrite Hs, accumulate_score. ring.
    + rewrite Hk, accumulate_keys. split.
      * intros [[H| ->]|(r' & Hr' & Hid)]; eauto.
      * intros [H|(r' & [<-|Hr'] & Hid)]; eauto.
Qed.

Lemma weighted_loop_facts (self : ResultFusion)
    (pairs : list (list SearchResult * Q))
    (fused fused' : ODict.odict SearchResult) (doc_id : string) :
  normalize_scores self = Some false ->
  weighted_loop self pairs fused = Ok fused' ->
  score_of fused' doc_id == score_of fused doc_id + weighted_total doc_id pairs
  /\ (In doc_id (ODict.keys fused')
      <-> In doc_id (ODict.keys fused) \/ occurs_in doc_id (map fst pairs)).
Proof.
  intros Hattr. revert fused.
  induction pairs as [|[results weight] pairs IH]; intros fused; simpl.
  - intros [= <-]. split; [ring|]. split; [auto|].
    intros [H|(rs & r & [] & _)]. exact H.
  - unfold getattr_normalize_scores. rewrite Hattr. simpl. intros Hloop.
    destruct (IH _ Hloop) as [Hs Hk].
    destruct (fold_accumulate_facts weight results fused doc_id) as [Hs1 Hk1].
    split.
    + rewrite Hs, Hs1. ring.
    + rewrite Hk, Hk1. unfold occurs_in. simpl. split.
      * intros [[H|(r & Hr & Hid)]|(rs & r & Hrs & Hr & Hid)]; eauto 8.
      * intros [H|(rs & r & [<-|Hrs] & Hr & Hid)]; eauto 8.
Qed.

Lemma combine_fst_three (self : ResultFusion)
    (result_sets : list (list SearchResult)) :
  map fst (combine result_sets (weights_for self result_sets))
  = firstn 3 result_sets.
Proof.
  unfold weights_for, normalize_weights.
  destruct result_sets as [|a [|b [|c rest]]]; simpl firstn;
    try (destruct rest; simpl firstn);
    destruct (Qle_bool _ 0); reflexivity.
Qed.

Lemma well_keyed_values_In (fused : ODict.odict SearchResult)
    (r : SearchResult) :
  well_keyed fused -> In r (ODict.values fused) ->
  ODict.get fused (id (document r)) = Some r.
Proof.
  intros [Hnd Hall] Hr. unfold ODict.values in Hr.
  apply in_map_iff in Hr as ([k0 r'] & Heq & Hin). simpl in Heq. subst r'.
  rewrite List.Forall_forall in Hall. pose proof (Hall _ Hin) as Hk.
  simpl in Hk. rewrite Hk. apply odict_In_get; assumption.
Qed.

(** Weighted fusion without score normalisation returns, in descending
    order of score, one result per document of the first three lists; the
    score of a document is the sum, over its occurrences in these lists,
    of its score in the list times the normalised weight of the list. *)
Theorem weighted_fusion_scores (self : ResultFusion)
    (result_sets : list (list SearchResult)) :
  normalize_scores self = Some false ->
  exists out,
    _weighted_fusion self result_sets = Ok out
    /\ sorted_desc out
    /\ Forall (fun r =>
                 score r
                 == weighted_total (id (document r))
                      (combine result_sets (weights_for self result_sets)))
         out
    /\ (forall doc_id,
          In doc_id (ranking out) <-> occurs_in doc_id (firstn 3 result_sets)).
Proof.
  intros Hattr. unfold _weighted_fusion. fold (weights_for self result_sets).
  destruct (weighted_loop_total self
              (combine result_sets (weights_for self result_sets)) [] Hattr)
    as [fused Hloop].
  rewrite Hloop. simpl. eexists. split; [reflexivity|].
  assert (Hwk : well_keyed fused).
  { eapply weighted_loop_well_keyed; [|exact Hloop]. split; constructor. }
  split; [apply sort_desc_sorted|]. split.
  - rewrite List.Forall_forall. intros r Hr.
    apply (Permutation_in _ (sort_desc_perm score (ODict.values fused))) in Hr.
    pose proof (well_keyed_values_In _ _ Hwk Hr) as Hget.
    destruct (weighted_loop_facts self _ _ _ (id (document r)) Hattr Hloop)
      as [Hs _].
    unfold score_of in Hs. rewrite Hget in Hs. simpl in Hs.
    rewrite Hs. ring.
  - intros doc_id.
    destruct (weighted_loop_facts self _ _ _ doc_id Hattr Hloop) as [_ Hk].
    rewrite combine_fst_three in Hk. simpl in Hk.
    rewrite <- (well_keyed_ranking _ Hwk) in Hk.
    assert (Hperm : In doc_id (ranking (sort_desc score (ODict.values fused)))
                    <-> In doc_id (ranking (ODict.values fused))).
    { unfold ranking. split; apply Permutation_in, Permutation_map;
        [|symmetry]; apply sort_desc_perm. }
    rewrite Hperm, Hk. split; [intros [[]|H]; exact H | auto].
Qed.

Lemma weighted_fusion_scores_witness :
  exists out,
    _weighted_fusion (__init__ Fixtures.raw_config) Fixtures.sample_results
    = Ok out
    /\ sorted_desc out.
Proof.
  destruct (weighted_fusion_scores (__init__ Fixtures.raw_config)
              Fixtures.sample_results eq_refl) as (out & Hout & Hs & _).
  exists out. split; assumption.
Defined.

End FusionCoverage.

Section RRFCoverage.

Import Models ResultFusion.
Local Open Scope Q_scope.

(** Whenever reciprocal rank fusion returns, the documents of its output
    are exactly the documents that occur in the input lists: none is lost
    and none is invented. *)
Theorem rrf_fusion_covers (self : ResultFusion)
    (result_sets : list (list SearchResult)) (out : list SearchResult) :
  _reciprocal_rank_fusion self result_sets = Ok out ->
  forall doc_id, In doc_id (ranking out) <-> occurs_in doc_id result_sets.
Proof.
  unfold _reciprocal_rank_fusion.
  destruct (rrf_outer self result_sets ([], [])) as [[scores docs]|e] eqn:E;
    simpl; [|discriminate].
  destruct (rrf_outer_facts _ _ _ _ E) as [Hinv _].
  destruct Hinv as (Hnd & Hkeys & Hdocs); [repeat split; constructor|].
  simpl in *.
  destruct (rrf_results_spec docs scores Hdocs) as (pre & Hpre & Hmap).
  { intros key Hkey. rewrite <- Hkeys. exact Hkey. }
  unfold ODict.items. rewrite Hpre. simpl. intros [= <-] doc_id.
  assert (Hrank : ranking pre = ODict.keys scores).
  { unfold ranking, ODict.keys. rewrite <- Hmap, List.map_map. reflexivity. }
  assert (Hperm : In doc_id (ranking (sort_desc score pre))
                  <-> In doc_id (ranking pre)).
  { unfold ranking. split; apply Permutation_in, Permutation_map;
      [|symmetry]; apply sort_desc_perm. }
  rewrite Hperm, Hrank.
  rewrite (rrf_outer_keys _ _ _ _ doc_id E). simpl.
  split; [intros [[]|H]; exact H | auto].
Qed.

Lemma rrf_fusion_covers_witness :
  exists out,
    _reciprocal_rank_fusion (__init__ Fixtures.rrf_config)
      Fixtures.sample_results = Ok out
    /\ In "3"%string (ranking out).
Proof.
  eexists. split; [reflexivity|].
  apply (rrf_fusion_covers (__init__ Fixtures.rrf_config)
           Fixtures.sample_results _ eq_refl).
  exists Fixtures.results2, (new_SearchResult Fixtures.doc3 (6 # 10)).
  simpl. auto.
Defined.

End RRFCoverage.

(** ** fusion.py: score normalisation *)

Section MinMaxMore.

Import ScoreNormalizer.
Local Open Scope Q_scope.

(** Min-max normalisation keeps the number of scores, puts every score
    between 0 and 1, and keeps their order: a score that is not larger
    than another is not larger after normalisation either. *)
Theorem min_max_normalize_range_monotone (scores : list Q) :
  length (min_max_normalize scores) = length scores
  /\ Forall (fun x => 0 <= x /\ x <= 1) (min_max_normalize scores)
  /\ forall (i j : nat) (x y x' y' : Q),
       scores !! i = Some x -> scores !! j = Some y ->
       min_max_normalize scores !! i = Some x' ->
       min_max_normalize scores !! j = Some y' ->
       x <= y -> x' <= y'.
Proof.
  destruct scores as [|s rest].
  { split; [reflexivity|]. split; [constructor|]. intros i j ? ? ? ? H.
    rewrite lookup_nil in H. discriminate. }
  unfold min_max_normalize.
  destruct (Qeq_bool (np_max s rest) (np_min s rest)) eqn:E.
  - split; [apply repeat_length|]. split.
    + apply List.Forall_forall. intros x Hx. apply repeat_spec in Hx.
      subst x. split; discriminate.
    + intros i j x y x' y' _ _ Hi Hj _.
      apply list_elem_of_lookup_2, list_elem_of_In, repeat_spec in Hi, Hj.
      subst. apply Qle_refl.
  - assert (Hd : ~ np_max s rest == np_min s rest).
    { intros H. apply Qeq_bool_iff in H. congruence. }
    assert (Hpos : 0 < np_max s rest - np_min s rest).
    { destruct (Qle_lt_or_eq _ _ (np_min_le_max rest s)) as [H|H].
      - unfold Qminus. rewrite <- Qlt_minus_iff. exact H.
      - exfalso. apply Hd. symmetry. exact H. }
    pose proof (np_min_lower rest s) as [Hlo_hd Hlo_tl].
    pose proof (np_max_upper rest s) as [Hhi_hd Hhi_tl].
    assert (Hlo : Forall (fun y => np_min s rest <= y) (s :: rest))
      by (constructor; assumption).
    assert (Hhi : Forall (fun y => y <= np_max s rest) (s :: rest))
      by (constructor; assumption).
    split; [apply length_map|]. split.
    + apply List.Forall_map. rewrite List.Forall_forall in *.
      intros x Hx. split.
      * apply Qle_shift_div_l; [exact Hpos|]. rewrite Qmult_0_l.
        unfold Qminus. rewrite <- Qle_minus_iff. apply Hlo, Hx.
      * apply Qle_shift_div_r; [exact Hpos|]. rewrite Qmult_1_l.
        unfold Qminus. apply Qplus_le_l. apply Hhi, Hx.
    + intros i j x y x' y' Hi Hj Hi' Hj' Hxy.
      change (map ?f (s :: rest)) with (f <$> (s :: rest)) in Hi', Hj'.
      rewrite list_lookup_fmap, Hi in Hi'. rewrite list_lookup_fmap, Hj in Hj'.
      simpl in Hi', Hj'. injection Hi' as <-. injection Hj' as <-.
      unfold Qdiv. apply Qmult_le_compat_r.
      * unfold Qminus. apply Qplus_le_l. exact Hxy.
      * apply Qlt_le_weak, Qinv_lt_0_compat, Hpos.
Qed.

Lemma min_max_normalize_range_monotone_witness :
  exists x' y' : Q,
    min_max_normalize [1; 3; 2] !! 0%nat = Some x'
    /\ min_max_normalize [1; 3; 2] !! 2%nat = Some y'
    /\ x' <= y'.
Proof.
  eexists. eexists. split; [reflexivity|]. split; [reflexivity|].
  apply (proj2 (proj2 (min_max_normalize_range_monotone [1; 3; 2]))
           0%nat 2%nat 1 2); try reflexivity.
  unfold Qle. simpl. lia.
Defined.

End MinMaxMore.

(** ** preprocessing.py *)

Section PreprocessingMore.

Import Preprocessing.

Context (nltk : Nltk).

(** A token that starts with a letter is not a piece of
    [string.punctuation]. *)
Lemma letter_not_punctuation (c : ascii) (rest : string) :
  Str.is_letter c = true ->
  Str.contains Str.punctuation (String c rest) = false.
Proof.
  destruct c as [b0 b1 b2 b3 b4 b5 b6 b7].
  destruct b0, b1, b2, b3, b4, b5, b6, b7;
    first [ discriminate | intros _; vm_compute; reflexivity ].
Qed.

Lemma isalpha_not_punctuation (token : string) :
  Str.isalpha token = true -> Str.contains Str.punctuation token = false.
Proof.
  destruct token as [|c rest]; [discriminate|]. simpl.
  intros H. apply andb_true_iff in H as [Hc _].
  apply letter_not_punctuation, Hc.
Qed.

(** What one round of the filter decides: a token is kept exactly when it
    is alphabetic, within the length bounds and not in the stopword set,
    and it is kept as its lemma (or stem); the punctuation test never
    decides. *)
Lemma filter_token_Some (self : TextPreprocessor) (token out : string) :
  filter_token nltk self token = Some out
  <-> Str.isalpha token = true
      /\ min_word_length self <= String.length token
      /\ String.length token <= max_word_length self
      /\ (token ∉ stop_words self)
      /\ out = (if lemmatize self then wordnet_lemmatize nltk token
                else porter_stem nltk token).
Proof.
  unfold filter_token. split.
  - destruct (Str.contains Str.punctuation token); [discriminate|].
    case_bool_decide as Hstop; [discriminate|].
    destruct (String.length token <? min_word_length self)%nat eqn:Emin;
      [discriminate|].
    destruct (max_word_length self <? String.length token)%nat eqn:Emax;
      [discriminate|].
    simpl. destruct (Str.isalpha token); [|discriminate]. simpl.
    intros [= <-]. apply Nat.ltb_ge in Emin, Emax. auto.
  - intros (Halpha & Hmin & Hmax & Hstop & ->).
    rewrite (isalpha_not_punctuation _ Halpha).
    rewrite bool_decide_eq_false_2 by exact Hstop.
    apply Nat.ltb_ge in Hmin, Hmax. rewrite Hmin, Hmax, Halpha. reflexivity.
Qed.

(** [_filter_tokens] returns, in input order, the lemma (or stem) of each
    token that is alphabetic, within the length bounds and not a stopword,
    and nothing else; so it never returns more tokens than it is given. *)
Theorem filter_tokens_sound_complete (self : TextPreprocessor)
    (tokens : list string) :
  length (_filter_tokens nltk self tokens) <= length tokens
  /\ forall out : string,
       out ∈ _filter_tokens nltk self tokens
       <-> exists token,
             token ∈ tokens
             /\ Str.isalpha token = true
             /\ min_word_length self <= String.length token
             /\ String.length token <= max_word_length self
             /\ (token ∉ stop_words self)
             /\ out = (if lemmatize self then wordnet_lemmatize nltk token
                       else porter_stem nltk token).
Proof.
  unfold _filter_tokens. split.
  - induction tokens as [|t tokens IH]; [reflexivity|].
    change (omap (filter_token nltk self) (t :: tokens))
      with (match filter_token nltk self t with
            | Some y => y :: omap (filter_token nltk self) tokens
            | None => omap (filter_token nltk self) tokens
            end).
    destruct (filter_token nltk self t); simpl; lia.
  - intros out. rewrite list_elem_of_omap. split.
    + intros (token & Hin & Hf). exists token. split; [exact Hin|].
      apply filter_token_Some, Hf.
    + intros (token & Hin & H). exists token. split; [exact Hin|].
      apply filter_token_Some, H.
Qed.

(** Query mode is document mode: for every text, [QueryPreprocessor]
    returns the tokens [TextPreprocessor.preprocess] returns with the same
    settings, and leaves the settings as they were. *)
Theorem query_mode_is_document_mode (self : TextPreprocessor) (text : string) :
  query_preprocess nltk self text = (preprocess nltk self text, self).
Proof. apply query_preprocess_as_document. Qed.

End PreprocessingMore.

(** ** bm25.py *)

Section BM25More.

Import Models BM25.

Context (preprocess : string -> list string).

Lemma total_tokens_app (docs : list (list string)) (toks : list string) :
  total_tokens (docs ++ [toks]) = total_tokens docs + length toks.
Proof.
  unfold total_tokens. induction docs as [|d docs IH]; simpl; [lia|].
  rewrite IH. lia.
Qed.

Lemma update_avg_length_ok (self : BM25Indexer) :
  arrays_ok self -> indexer_ok (_update_avg_length self).
Proof.
  intros Hok. pose proof Hok as [Hpar Hnd Hst Hme Hen Hsz Htot].
  unfold _update_avg_length.
  destruct (size (doc_lengths self) =? 0)%nat eqn:E.
  - split; [exact Hok|]. intros Hne. exfalso. apply Hne.
    apply Nat.eqb_eq in E. rewrite Hsz in E.
    destruct (tokenized_corpus self); [reflexivity | discriminate].
  - split.
    + constructor; simpl; assumption.
    + intros _. simpl. rewrite Htot, Hsz. reflexivity.
Qed.

Lemma add_document_ok (self : BM25Indexer) (doc : Document) :
  indexer_ok self -> indexer_ok (add_document preprocess self doc).
Proof.
  intros [Hok Havg]. unfold add_document.
  destruct (documents self !! id doc) eqn:E; [split; assumption|].
  apply update_avg_length_ok.
  destruct Hok as [Hpar Hnd Hst Hme Hen Hsz Htot].
  assert (Hfresh : id doc ∉ doc_ids self).
  { intros Hin. apply Hst in Hin. rewrite E in Hin. destruct Hin. discriminate. }
  assert (Hlen : doc_lengths self !! id doc = None).
  { destruct (doc_lengths self !! id doc) eqn:El; [|reflexivity].
    assert (Hs : is_Some (documents self !! id doc)) by (apply Hme; eauto).
    rewrite E in Hs. destruct Hs. discriminate. }
  constructor; simpl.
  - rewrite !length_app. simpl. lia.
  - apply NoDup_app. split; [exact Hnd|]. split; [|apply NoDup_singleton].
    intros x Hx Hx'. apply list_elem_of_singleton in Hx'. subst x. contradiction.
  - intros doc_id. rewrite elem_of_app, list_elem_of_singleton, Hst.
    destruct (decide (id doc = doc_id)) as [<-|Hne].
    + rewrite lookup_insert_eq. split; eauto.
    + rewrite lookup_insert_ne by exact Hne. split; [|auto].
      intros [H|H]; [exact H | congruence].
  - intros doc_id. destruct (decide (id doc = doc_id)) as [<-|Hne].
    + rewrite !lookup_insert_eq. split; eauto.
    + rewrite !lookup_insert_ne by exact Hne. apply Hme.
  - intros i doc_id toks Hi Ht.
    destruct (decide (i < length (doc_ids self))) as [Hlt|Hge].
    + rewrite lookup_app_l in Hi by exact Hlt.
      rewrite lookup_app_l in Ht by (rewrite <- Hpar; exact Hlt).
      assert (Hne : id doc <> doc_id).
      { intros <-. apply Hfresh. eapply list_elem_of_lookup_2, Hi. }
      rewrite !lookup_insert_ne by exact Hne. eapply Hen; eassumption.
    + rewrite lookup_app_r in Hi by lia.
      rewrite lookup_app_r in Ht by (rewrite <- Hpar; lia).
      rewrite <- Hpar in Ht.
      destruct (i - length (doc_ids self)) as [|n]; simpl in Hi, Ht;
        [|rewrite lookup_nil in Hi; discriminate].
      injection Hi as <-. injection Ht as <-.
      rewrite !lookup_insert_eq. split; [reflexivity|].
      eexists. split; [reflexivity|]. split; reflexivity.
  - rewrite map_size_insert_None by exact Hlen.
    rewrite length_app, Hsz. simpl. lia.
  - rewrite map_fold_insert_L; [|intros; lia|exact Hlen].
    rewrite Htot, total_tokens_app. lia.
Qed.

Lemma add_documents_ok (docs : list Document) (self : BM25Indexer) :
  indexer_ok self -> indexer_ok (add_documents preprocess self docs).
Proof.
  unfold add_documents. revert self.
  induction docs as [|doc docs IH]; intros self H; simpl; [exact H|].
  apply IH, add_document_ok, H.
Qed.

Lemma new_indexer_ok : indexer_ok new_indexer.
Proof.
  split.
  - constructor; simpl; try reflexivity.
    + constructor.
    + intros doc_id. rewrite lookup_empty. split.
      * intros H. apply elem_of_nil in H. destruct H.
      * intros [x Hx]. discriminate.
    + intros doc_id. rewrite !lookup_empty.
      split; intros [x Hx]; discriminate.
    + intros i doc_id toks H. rewrite lookup_nil in H. discriminate.
  - intros H. contradiction.
Qed.

Lemma indexed_indexer_ok (self : BM25Searcher) :
  indexed preprocess self -> indexer_ok (indexer self).
Proof.
  induction 1 as [k1 b eps | self docs Hidx IH]; simpl.
  - apply new_indexer_ok.
  - apply add_documents_ok, IH.
Qed.

Lemma add_document_stored (self : BM25Indexer) (doc : Document) :
  is_Some (documents (add_document preprocess self doc) !! id doc).
Proof.
  unfold add_document. destruct (documents self !! id doc) eqn:E.
  - rewrite E. eauto.
  - match goal with
    | |- context [_update_avg_length ?x] =>
        destruct (update_avg_length_fields x) as (-> & _)
    end.
    simpl. rewrite lookup_insert_eq. eauto.
Qed.

Lemma add_document_extends (self : BM25Indexer) (doc : Document) :
  exists more,
    tokenized_corpus (add_document preprocess self doc)
    = tokenized_corpus self ++ more.
Proof.
  unfold add_document. destruct (documents self !! id doc).
  - exists []. rewrite app_nil_r. reflexivity.
  - match goal with
    | |- context [_update_avg_length ?x] =>
        destruct (update_avg_length_fields x) as (_ & -> & _)
    end.
    simpl. eauto.
Qed.

Lemma add_documents_extends (docs : list Document) (self : BM25Indexer) :
  exists more,
    tokenized_corpus (add_documents preprocess self docs)
    = tokenized_corpus self ++ more.
Proof.
  unfold add_documents. revert self.
  induction docs as [|doc docs IH]; intros self; simpl.
  - exists []. rewrite app_nil_r. reflexivity.
  - destruct (IH (add_document preprocess self doc)) as [m1 ->].
    destruct (add_document_extends self doc) as [m2 ->].
    rewrite <- app_assoc. eauto.
Qed.

Lemma indexed_model_current (self : BM25Searcher) :
  indexed preprocess self -> model_current self.
Proof.
  induction 1 as [k1 b eps | self docs Hidx IH]; unfold model_current; simpl.
  - reflexivity.
  - destruct (tokenized_corpus (add_documents preprocess (indexer self) docs))
      eqn:E; [|reflexivity].
    destruct (add_documents_extends docs (indexer self)) as [more Hmore].
    rewrite E in Hmore. symmetry in Hmore.
    apply app_eq_nil in Hmore as [Hnil _].
    rewrite IH, Hnil. reflexivity.
Qed.

Lemma add_documents_present (docs : list Document) (self : BM25Indexer) :
  Forall (fun doc => is_Some (documents self !! id doc)) docs ->
  add_documents preprocess self docs = self.
Proof.
  unfold add_documents. induction 1 as [|doc docs Hdoc Hall IH]; simpl.
  - reflexivity.
  - rewrite add_document_present by exact Hdoc. exact IH.
Qed.

(** In every index built by [index_documents], the id list and the
    tokenized corpus run in parallel over distinct ids, there are as many
    stored documents as corpus entries, and the document stored under the
    [i]-th id carries the [i]-th token list as its cached tokens and its
    length as its recorded length. *)
Theorem indexer_arrays_aligned (self : BM25Searcher) :
  indexed preprocess self ->
  length (doc_ids (indexer self)) = length (tokenized_corpus (indexer self))
  /\ document_count (indexer self) = length (tokenized_corpus (indexer self))
  /\ NoDup (doc_ids (indexer self))
  /\ forall (i : nat) (doc_id : string) (toks : list string),
       doc_ids (indexer self) !! i = Some doc_id ->
       tokenized_corpus (indexer self) !! i = Some toks ->
       doc_lengths (indexer self) !! doc_id = Some (length toks)
       /\ exists doc,
            documents (indexer self) !! doc_id = Some doc
            /\ id doc = doc_id /\ tokens doc = Some toks.
Proof.
  intros Hidx. destruct (indexed_indexer_ok self Hidx) as [Hok _].
  destruct (indexed_invariant preprocess self Hidx) as [Hal _].
  destruct Hok. auto.
Qed.

(** After any sequence of insertions into a non-empty index, the average
    document length is the total number of tokens divided by the number
    of documents. *)
Theorem avg_doc_length_is_mean (self : BM25Searcher) :
  indexed preprocess self ->
  tokenized_corpus (indexer self) <> [] ->
  avg_doc_length (indexer self)
  = (inject_Z (Z.of_nat (total_tokens (tokenized_corpus (indexer self))))
     / inject_Z (Z.of_nat (length (tokenized_corpus (indexer self)))))%Q.
Proof.
  intros Hidx. destruct (indexed_indexer_ok self Hidx) as [_ Havg].
  exact Havg.
Qed.

(** Indexing documents whose ids are all known leaves a searcher exactly
    as it was: index, corpus, lengths, average and scorer. *)
Theorem index_documents_known_ids (self : BM25Searcher)
    (docs : list Document) :
  indexed preprocess self ->
  Forall (fun doc => is_Some (documents (indexer self) !! id doc)) docs ->
  index_documents preprocess self docs = self.
Proof.
  intros Hidx Hall. unfold index_documents.
  rewrite (add_documents_present docs _ Hall).
  pose proof (indexed_model_current self Hidx) as Hm.
  unfold model_current in Hm. destruct self as [k1 b eps idx model].
  simpl in *. f_equal. destruct (tokenized_corpus idx); congruence.
Qed.

(** Of two documents with the same id the first one wins: adding the
    second changes nothing, whatever its content. *)
Theorem first_document_wins (self : BM25Indexer) (doc doc' : Document) :
  id doc' = id doc ->
  add_document preprocess (add_document preprocess self doc) doc'
  = add_document preprocess self doc.
Proof.
  intros Hid. apply add_document_present. rewrite Hid.
  apply add_document_stored.
Qed.

End BM25More.

Lemma indexer_arrays_aligned_witness :
  BM25.doc_ids (BM25.indexer TextFixtures.pets_index)
  = ["1"; "2"; "3"]%string
  /\ BM25.tokenized_corpus (BM25.indexer TextFixtures.pets_index)
     = [["cat"; "sat"]; ["dog"]; ["fish"; "swims"]]%string
  /\ BM25.document_count (BM25.indexer TextFixtures.pets_index) = 3%nat
  /\ NoDup (BM25.doc_ids (BM25.indexer TextFixtures.pets_index))
  /\ BM25.doc_lengths (BM25.indexer TextFixtures.pets_index) !! "3"%string
     = Some 2%nat
  /\ exists doc,
       BM25.documents (BM25.indexer TextFixtures.pets_index) !! "1"%string
       = Some doc
       /\ Models.id doc = "1"%string
       /\ Models.tokens doc = Some ["cat"; "sat"]%string.
Proof.
  destruct (indexer_arrays_aligned
              (Preprocessing.preprocess TextFixtures.plain_nltk
                 TextFixtures.query_preprocessor)
              TextFixtures.pets_index)
    as (Hlen & Hcount & Hnd & Hentries).
  { apply BM25.indexed_more, BM25.indexed_more, BM25.indexed_new. }
  split; [reflexivity|]. split; [reflexivity|].
  split; [rewrite Hcount; reflexivity|].
  split; [exact Hnd|].
  split.
  - apply (Hentries 2%nat "3"%string ["fish"; "swims"]%string);
      reflexivity.
  - apply (Hentries 0%nat "1"%string ["cat"; "sat"]%string); reflexivity.
Defined.

Lemma avg_doc_length_is_mean_witness :
  BM25.avg_doc_length (BM25.indexer TextFixtures.cat_index)
  = (inject_Z 1 / inject_Z 1)%Q.
Proof.
  apply (avg_doc_length_is_mean
           (Preprocessing.preprocess TextFixtures.plain_nltk
              TextFixtures.query_preprocessor)
           TextFixtures.cat_index).
  - apply BM25.indexed_more, BM25.indexed_new.
  - discriminate.
Defined.

Lemma index_documents_known_ids_witness :
  BM25.index_documents
    (Preprocessing.preprocess TextFixtures.plain_nltk
       TextFixtures.query_preprocessor)
    TextFixtures.cat_index [Models.new_Document "1" "another text"]
  = TextFixtures.cat_index.
Proof.
  apply index_documents_known_ids.
  - apply BM25.indexed_more, BM25.indexed_new.
  - constructor; [|constructor]. eexists. reflexivity.
Defined.

Lemma first_document_wins_witness :
  BM25.add_document
    (Preprocessing.preprocess TextFixtures.plain_nltk
       TextFixtures.query_preprocessor)
    (BM25.add_document
       (Preprocessing.preprocess TextFixtures.plain_nltk
          TextFixtures.query_preprocessor)
       BM25.new_indexer (Models.new_Document "1" "cat"))
    (Models.new_Document "1" "dog")
  = BM25.add_document
      (Preprocessing.preprocess TextFixtures.plain_nltk
         TextFixtures.query_preprocessor)
      BM25.new_indexer (Models.new_Document "1" "cat").
Proof. apply first_document_wins. reflexivity. Defined.

Section BM25Scores.

Import Models BM25.

Context (preprocess : string -> list string).

Lemma containing_le (term : string) (docs : list (list string)) :
  containing term docs <= length docs.
Proof. unfold containing. apply length_filter. Qed.

Lemma get_idf_indexed (self : BM25Searcher) (term : string) :
  indexed preprocess self ->
  get_document_frequency self term
  <= length (tokenized_corpus (indexer self))
  /\ get_idf self term
     = if (get_document_frequency self term =? 0)%nat then 0%R
       else idf_formula (length (tokenized_corpus (indexer self)))
              (get_document_frequency self term).
Proof.
  intros Hidx. destruct (indexed_invariant preprocess self Hidx) as [Hal Hnone].
  split.
  - unfold get_document_frequency. destruct (bm25_model self); [|lia].
    rewrite count_mentions. apply containing_le.
  - unfold get_idf, document_count. rewrite Hal.
    destruct (bm25_model self) eqn:E; [reflexivity|].
    unfold get_document_frequency. rewrite E. reflexivity.
Qed.

(** The document frequency of a term never exceeds the number of indexed
    documents, so the logarithm in [get_idf] is taken of a positive
    number; and the IDF of a term that occurs is positive when fewer than
    half of the documents contain it, zero at exactly half, and negative
    beyond: no floor is applied. *)
Theorem idf_sign (self : BM25Searcher) (term : string) :
  indexed preprocess self ->
  let N := length (tokenized_corpus (indexer self)) in
  let df := get_document_frequency self term in
  df <= N
  /\ (0 < (INR N - INR df + 0.5) / (INR df + 0.5))%R
  /\ (0 < df -> 2 * df < N -> (0 < get_idf self term)%R)
  /\ (0 < df -> 2 * df = N -> get_idf self term = 0%R)
  /\ (N < 2 * df -> (get_idf self term < 0)%R).
Proof.
  intros Hidx N df.
  destruct (get_idf_indexed self term Hidx) as [Hle Hidf].
  fold N df in Hle, Hidf.
  assert (HN : (INR df <= INR N)%R) by (apply le_INR, Hle).
  assert (Hdf : (0 <= INR df)%R) by apply pos_INR.
  assert (Hden : (0 < INR df + 0.5)%R) by lra.
  assert (Hnum : (0 < INR N - INR df + 0.5)%R) by lra.
  assert (Hratio : (0 < (INR N - INR df + 0.5) / (INR df + 0.5))%R)
    by (apply Rdiv_lt_0_compat; assumption).
  split; [exact Hle|]. split; [exact Hratio|].
  assert (Hdouble : INR (2 * df) = (2 * INR df)%R).
  { rewrite mult_INR. simpl. lra. }
  split; [|split].
  - intros Hpos Hhalf. rewrite Hidf.
    destruct (df =? 0)%nat eqn:E; [apply Nat.eqb_eq in E; lia|].
    unfold idf_formula. rewrite <- ln_1. apply ln_increasing; [lra|].
    apply lt_INR in Hhalf. rewrite Hdouble in Hhalf.
    apply (Rmult_lt_reg_r (INR df + 0.5)); [exact Hden|].
    unfold Rdiv. rewrite Rmult_assoc, Rinv_l by lra. lra.
  - intros Hpos Hhalf. rewrite Hidf.
    destruct (df =? 0)%nat eqn:E; [reflexivity|].
    unfold idf_formula.
    apply (f_equal INR) in Hhalf. rewrite Hdouble in Hhalf.
    replace ((INR N - INR df + 0.5) / (INR df + 0.5))%R with 1%R;
      [apply ln_1|].
    rewrite <- Hhalf. field. lra.
  - intros Hmost. rewrite Hidf.
    destruct (df =? 0)%nat eqn:E; [apply Nat.eqb_eq in E; lia|].
    unfold idf_formula. rewrite <- ln_1. apply ln_increasing; [exact Hratio|].
    apply lt_INR in Hmost. rewrite Hdouble in Hmost.
    apply (Rmult_lt_reg_r (INR df + 0.5)); [exact Hden|].
    unfold Rdiv. rewrite Rmult_assoc, Rinv_l by lra. lra.
Qed.

End BM25Scores.

Lemma idf_sign_witness :
  (BM25.get_idf TextFixtures.cat_index "cat" < 0)%R.
Proof.
  apply (idf_sign
           (Preprocessing.preprocess TextFixtures.plain_nltk
              TextFixtures.query_preprocessor)
           TextFixtures.cat_index "cat").
  - apply BM25.indexed_more, BM25.indexed_new.
  - vm_compute. lia.
Defined.

Section BM25Search.

Import Models BM25.

Context (preprocess : string -> list string)
        (get_scores : BM25Okapi -> list string -> list Q)
        (sort_reverse : list SearchResult -> list SearchResult).

Lemma hit_Some (self : BM25Searcher) (query : Query) (doc_id : string)
    (s : Q) (r : SearchResult) :
  hit self query (doc_id, s) = Some r ->
  (min_score query < s)%Q
  /\ documents (indexer self) !! doc_id = Some (document r)
  /\ score r = s /\ bm25_score r = s
  /\ semantic_score r = 0%Q /\ expansion_score r = 0%Q.
Proof.
  unfold hit. destruct (Qle_bool s (min_score query)) eqn:E; [discriminate|].
  destruct (documents (indexer self) !! doc_id) as [doc|]; [|discriminate].
  intros [= <-]. simpl. repeat split.
  apply Qnot_le_lt. intros Hle. apply Qle_bool_iff in Hle. congruence.
Qed.

Lemma stored_under_own_id (self : BM25Indexer) (doc_id : string)
    (doc : Document) :
  arrays_ok self -> doc_id ∈ doc_ids self ->
  documents self !! doc_id = Some doc -> id doc = doc_id.
Proof.
  intros [Hpar _ _ _ Hen _ _] Hin Hdoc.
  apply list_elem_of_lookup in Hin as [i Hi].
  assert (Hlt : i < length (tokenized_corpus self)).
  { rewrite <- Hpar. eapply lookup_lt_Some, Hi. }
  apply lookup_lt_is_Some in Hlt as [toks Ht].
  destruct (Hen i doc_id toks Hi Ht) as (_ & doc' & Hd' & Hid & _).
  congruence.
Qed.

(** A lexical search returns nothing before anything is indexed and
    nothing for a query without tokens.  Otherwise, whatever order the
    results are sorted in, it returns at most [k] results, and each of
    them is a stored document, found under its own id, whose score is
    strictly above [min_score] and is also its [bm25_score], the other
    component scores being 0. *)
Theorem bm25_search_results (self : BM25Searcher) (query : Query) :
  (forall l, Permutation (sort_reverse l) l) ->
  indexed preprocess self ->
  let out := search preprocess get_scores sort_reverse self query in
  (bm25_model self = None -> out = [])
  /\ (preprocess (text query) = [] -> out = [])
  /\ length out <= k query
  /\ Forall (fun r =>
               (min_score query < score r)%Q
               /\ bm25_score r = score r
               /\ semantic_score r = 0%Q
               /\ expansion_score r = 0%Q
               /\ id (document r) ∈ doc_ids (indexer self)
               /\ documents (indexer self) !! id (document r)
                  = Some (document r))
       out.
Proof.
  intros Hperm Hidx out. subst out. unfold search.
  split; [intros ->; reflexivity|].
  split; [intros ->; destruct (bm25_model self); reflexivity|].
  destruct (bm25_model self) as [model|]; [|split; [simpl; lia | constructor]].
  destruct (preprocess (text query)) as [|t ts];
    [split; [simpl; lia | constructor]|].
  split; [rewrite length_take; lia|].
  apply List.Forall_forall. intros r Hr.
  apply list_elem_of_In, elem_of_take in Hr as (i & Hr & _).
  apply list_elem_of_lookup_2 in Hr.
  rewrite (Hperm _) in Hr.
  apply list_elem_of_omap in Hr as ([doc_id s] & Hin & Hhit).
  apply hit_Some in Hhit as (Hmin & Hdoc & <- & Hbm & Hsem & Hexp).
  assert (Hid : doc_id ∈ doc_ids (indexer self)).
  { apply list_elem_of_In in Hin. apply in_combine_l in Hin.
    apply list_elem_of_In, Hin. }
  destruct (indexed_indexer_ok preprocess self Hidx) as [Hok _].
  pose proof (stored_under_own_id _ _ _ Hok Hid Hdoc) as Hown.
  rewrite Hown. auto 10.
Qed.

End BM25Search.

Lemma bm25_search_results_witness :
  length (BM25.search
            (Preprocessing.preprocess TextFixtures.plain_nltk
               TextFixtures.query_preprocessor)
            TextFixtures.toy_scores TextFixtures.by_score
            TextFixtures.cat_index (Models.new_Query "cat" 10 0%Q ∅))
  <= 10.
Proof.
  apply (bm25_search_results
           (Preprocessing.preprocess TextFixtures.plain_nltk
              TextFixtures.query_preprocessor)
           TextFixtures.toy_scores TextFixtures.by_score
           TextFixtures.cat_index (Models.new_Query "cat" 10 0%Q ∅)).
  - intros l. apply sort_desc_perm.
  - apply BM25.indexed_more, BM25.indexed_new.
Defined.

(** ** semantic.py *)

Section SemanticMore.

Import Models Semantic.

Context (model_encode : string -> vector).

(** [encode_batch] in closed form: the embeddings, the cache update and
    the batch sent to the model, in terms of the uncached texts. *)
Lemma encode_batch_closed (self : EmbeddingGenerator) (texts : list string) :
  let uncached :=
    List.filter (fun t => match cached self t with
                          | Some _ => false
                          | None => true
                          end) texts in
  encode_batch model_encode self texts
  = (map (embedding_of model_encode self) texts,
     match uncached with
     | [] => self
     | _ =>
         if cache_enabled self
         then set_cache self
                (store (combine uncached (map model_encode uncached))
                   (embedding_cache self))
         else self
     end,
     match uncached with
     | [] => []
     | _ => [uncached]
     end).
Proof.
  intros uncached. unfold encode_batch.
  pose proof (scan_shape self texts 0) as Hshape.
  pose proof (scan_assign model_encode self texts 0
                (replicate (length texts)
                   (replicate (embedding_dim self) 0%Q))) as Hassign.
  destruct (scan self texts 0) as [[c u] ui].
  destruct Hshape as (_ & _ & _ & Hu).
  rewrite length_replicate in Hassign. specialize (Hassign (le_n _)).
  rewrite drop_ge in Hassign by (rewrite length_replicate; simpl; lia).
  simpl in Hassign. rewrite app_nil_r in Hassign.
  fold uncached in Hu. subst u.
  destruct uncached as [|t0 u]; simpl in *; rewrite Hassign; reflexivity.
Qed.

Lemma store_lookup_other (pairs : list (string * vector))
    (c : gmap string vector) (text : string) :
  ~ In text (map fst pairs) -> store pairs c !! text = c !! text.
Proof.
  unfold store. revert c.
  induction pairs as [|[t e] pairs IH]; intros c Hnot; simpl; [reflexivity|].
  rewrite IH by (intros H; apply Hnot; right; exact H).
  apply lookup_insert_ne. intros ->. apply Hnot. left. reflexivity.
Qed.

Lemma store_lookup_new (texts : list string) (c : gmap string vector)
    (text : string) :
  In text texts ->
  store (combine texts (map model_encode texts)) c !! text
  = Some (model_encode text).
Proof.
  unfold store. revert c.
  induction texts as [|t texts IH]; intros c Hin; simpl; [destruct Hin|].
  destruct (in_dec String.string_dec text texts) as [Hlater|Hnot].
  - apply IH, Hlater.
  - destruct Hin as [->|Hin]; [|contradiction].
    change (fold_left ?f ?l ?a !! text) with (store l a !! text).
    rewrite store_lookup_other.
    + apply lookup_insert_eq.
    + intros H. apply Hnot. apply in_map_iff in H as ([t' e'] & <- & H).
      apply in_combine_l in H. exact H.
Qed.

Lemma filter_In_fst (texts uncached : list string) (text : string)
    (p : string -> bool) :
  uncached = List.filter p texts ->
  (In text uncached <-> In text texts /\ p text = true).
Proof. intros ->. apply List.filter_In. Qed.

(** After a call of [encode] with caching enabled, the text is in the
    cache with the embedding returned; encoding it again returns the same
    embedding, sends nothing to the model and leaves the cache as it
    is. *)
Theorem encode_then_cached (self : EmbeddingGenerator) (text : string) :
  cache_enabled self = true ->
  let '(e, self', _) := encode model_encode self text in
  embedding_cache self' !! text = Some e
  /\ encode model_encode self' text = (e, self', []).
Proof.
  intros Hon. unfold encode at 1.
  destruct (cached self text) as [e|] eqn:E.
  - unfold cached in E. rewrite Hon in E. split; [exact E|].
    unfold encode, cached. rewrite Hon, E. reflexivity.
  - rewrite Hon.
    assert (Hnew : embedding_cache
                     (set_cache self
                        (<[text := model_encode text]> (embedding_cache self)))
                   !! text = Some (model_encode text))
      by apply lookup_insert_eq.
    split; [exact Hnew|].
    unfold encode, cached. simpl cache_enabled. rewrite Hon.
    simpl in Hnew. simpl embedding_cache. rewrite Hnew. reflexivity.
Qed.

End SemanticMore.

Lemma encode_then_cached_witness :
  snd (Semantic.encode SemanticFixtures.toy_model
         (snd (fst (Semantic.encode SemanticFixtures.toy_model
                      SemanticFixtures.warm_generator "bb")))
         "bb")
  = [].
Proof.
  pose proof (encode_then_cached SemanticFixtures.toy_model
                SemanticFixtures.warm_generator "bb" eq_refl)
    as H.
  destruct (Semantic.encode SemanticFixtures.toy_model
              SemanticFixtures.warm_generator "bb") as [[e g] calls].
  destruct H as [_ H]. simpl. rewrite H. reflexivity.
Defined.

Section SemanticBatch.

Import Models Semantic.

Context (model_encode : string -> vector).

Lemma filter_nil_all {A : Type} (p : A -> bool) (l : list A) :
  (forall x, In x l -> p x = false) -> List.filter p l = [].
Proof.
  induction l as [|x l IH]; intros H; simpl; [reflexivity|].
  rewrite (H x) by (left; reflexivity). apply IH. intros y Hy. apply H.
  right. exact Hy.
Qed.

(** A batch whose texts are all cached is answered from the cache. *)
Lemma encode_batch_all_cached (self : EmbeddingGenerator)
    (texts : list string) (v : string -> vector) :
  (forall t, In t texts -> cached self t = Some (v t)) ->
  encode_batch model_encode self texts = (map v texts, self, []).
Proof.
  intros Hall. rewrite encode_batch_closed. cbv zeta.
  rewrite filter_nil_all.
  - f_equal. f_equal. apply List.map_ext_in. intros t Ht.
    unfold embedding_of. rewrite (Hall t Ht). reflexivity.
  - intros t Ht. rewrite (Hall t Ht). reflexivity.
Qed.

Lemma cached_set_cache (self : EmbeddingGenerator) (c : gmap string vector)
    (t : string) :
  cache_enabled self = true -> cached (set_cache self c) t = c !! t.
Proof. intros H. unfold cached. simpl. rewrite H. reflexivity. Qed.

Lemma encode_batch_caches (self : EmbeddingGenerator) (texts : list string)
    (t : string) :
  cache_enabled self = true -> In t texts ->
  cached (snd (fst (encode_batch model_encode self texts))) t
  = Some (embedding_of model_encode self t).
Proof.
  intros Hon Ht. rewrite encode_batch_closed. cbv zeta. simpl.
  set (uncached := List.filter _ texts).
  assert (Hin : In t uncached <-> In t texts /\ cached self t = None).
  { unfold uncached. rewrite List.filter_In.
    destruct (cached self t); split; intros [? ?]; split;
      auto; discriminate. }
  assert (Hfst : forall u : list string,
             In t (map fst (combine u (map model_encode u))) -> In t u).
  { intros u H. apply in_map_iff in H as ([t' e'] & <- & H).
    apply in_combine_l in H. exact H. }
  unfold embedding_of.
  destruct (cached self t) as [e|] eqn:E.
  - assert (Hnot : ~ In t uncached)
      by (intros H; apply Hin in H as [_ H]; discriminate).
    destruct uncached as [|t0 u]; [exact E|].
    rewrite Hon. cbv iota. rewrite cached_set_cache by exact Hon.
    rewrite store_lookup_other by (intros H; apply Hnot, Hfst, H).
    unfold cached in E. rewrite Hon in E. exact E.
  - assert (Hyes : In t uncached) by (apply Hin; auto).
    destruct uncached as [|t0 u]; [destruct Hyes|].
    rewrite Hon. cbv iota. rewrite cached_set_cache by exact Hon.
    apply store_lookup_new, Hyes.
Qed.

(** After a call of [encode_batch] with caching enabled every text of the
    batch is in the cache with the embedding returned for it, and the
    same batch encoded again gives the same embeddings from the cache:
    nothing is sent to the model and the cache stays as it is. *)
Theorem encode_batch_then_cached (self : EmbeddingGenerator)
    (texts : list string) :
  cache_enabled self = true ->
  let '(embeddings, self', _) := encode_batch model_encode self texts in
  (forall (i : nat) (t : string),
     texts !! i = Some t ->
     exists e, embeddings !! i = Some e /\ embedding_cache self' !! t = Some e)
  /\ encode_batch model_encode self' texts = (embeddings, self', []).
Proof.
  intros Hon.
  pose proof (encode_batch_caches self texts) as Hc.
  pose proof (encode_batch_closed model_encode self texts) as Hclosed. cbv zeta in Hclosed.
  destruct (encode_batch model_encode self texts) as [[embeddings self'] calls].
  simpl in Hc. injection Hclosed as Hemb Hself _.
  assert (Hon' : cache_enabled self' = true).
  { rewrite Hself. destruct (List.filter _ texts); [exact Hon|].
    rewrite Hon. exact Hon. }
  split.
  - intros i t Hi. exists (embedding_of model_encode self t). split.
    + rewrite Hemb. change (map ?f texts) with (f <$> texts).
      rewrite list_lookup_fmap, Hi. reflexivity.
    + specialize (Hc t Hon). unfold cached in Hc. rewrite Hon' in Hc.
      apply Hc. eapply list_elem_of_In, list_elem_of_lookup_2, Hi.
  - rewrite Hemb. apply encode_batch_all_cached. intros t Ht.
    apply Hc; assumption.
Qed.

Lemma store_consistent (texts : list string) (c : gmap string vector)
    (t : string) (e : vector) :
  (forall t' e', c !! t' = Some e' -> e' = model_encode t') ->
  store (combine texts (map model_encode texts)) c !! t = Some e ->
  e = model_encode t.
Proof.
  intros Hc Hlook.
  destruct (in_dec String.string_dec t texts) as [Hin|Hnot].
  - rewrite (store_lookup_new model_encode texts c t Hin) in Hlook. congruence.
  - rewrite store_lookup_other in Hlook; [eauto|].
    intros H. apply Hnot. apply in_map_iff in H as ([t' e'] & <- & H).
    apply in_combine_l in H. exact H.
Qed.

(** Caching is transparent: as long as every cached embedding is the
    model's, [encode_batch] returns for each text the embedding the model
    computes for it, and the cache it leaves behind is again
    consistent. *)
Theorem encode_batch_transparent (self : EmbeddingGenerator)
    (texts : list string) :
  cache_consistent model_encode self ->
  let '(embeddings, self', _) := encode_batch model_encode self texts in
  embeddings = map model_encode texts
  /\ cache_consistent model_encode self'.
Proof.
  intros Hcons. rewrite encode_batch_closed. cbv zeta. split.
  - apply List.map_ext. intros t. unfold embedding_of, cached.
    destruct (cache_enabled self); [|reflexivity].
    destruct (embedding_cache self !! t) eqn:E; [|reflexivity].
    apply Hcons, E.
  - destruct (List.filter _ texts) as [|t0 u]; [exact Hcons|].
    destruct (cache_enabled self); [|exact Hcons].
    intros t e Hlook.
    change (store (combine (t0 :: u) (map model_encode (t0 :: u)))
              (embedding_cache self) !! t = Some e) in Hlook.
    revert Hlook. apply store_consistent. exact Hcons.
Qed.


End SemanticBatch.

Lemma encode_batch_then_cached_witness :
  snd (Semantic.encode_batch SemanticFixtures.toy_model
         (snd (fst (Semantic.encode_batch SemanticFixtures.toy_model
                      SemanticFixtures.warm_generator SemanticFixtures.batch)))
         SemanticFixtures.batch)
  = [].
Proof.
  pose proof (encode_batch_then_cached SemanticFixtures.toy_model
                SemanticFixtures.warm_generator SemanticFixtures.batch eq_refl)
    as H.
  destruct (Semantic.encode_batch SemanticFixtures.toy_model
              SemanticFixtures.warm_generator SemanticFixtures.batch)
    as [[e g] calls].
  destruct H as [_ H]. simpl. rewrite H. reflexivity.
Defined.

Lemma encode_batch_transparent_witness :
  fst (fst (Semantic.encode_batch SemanticFixtures.toy_model
              (Semantic.new_generator 1 true) SemanticFixtures.batch))
  = map SemanticFixtures.toy_model SemanticFixtures.batch.
Proof.
  pose proof (encode_batch_transparent SemanticFixtures.toy_model
                (Semantic.new_generator 1 true) SemanticFixtures.batch) as H.
  destruct (Semantic.encode_batch _ _ _) as [[e g] calls].
  apply H. intros t e0 Hlook.
  change ((∅ : gmap string Models.vector) !! t = Some e0) in Hlook.
  rewrite lookup_empty in Hlook. discriminate.
Defined.


(** ** expansion.py *)

Section SynonymFacts.

Import Models Expansion.

Context (preprocess : string -> list string)
        (get_synonyms : string -> list string)
        (max_synonyms : nat).

Lemma is_new_spec (term : string) (terms : list string) :
  is_new term terms = true <-> ~ In (Str.lower term) (map Str.lower terms).
Proof.
  unfold is_new. rewrite negb_true_iff. split.
  - intros Hex Hin.
    assert (existsb (String.eqb (Str.lower term)) (map Str.lower terms) = true).
    { apply existsb_exists. exists (Str.lower term).
      split; [exact Hin | apply String.eqb_refl]. }
    congruence.
  - intros Hnot. destruct (existsb _ _) eqn:E; [|reflexivity].
    apply existsb_exists in E as (x & Hx & Heq).
    apply String.eqb_eq in Heq. subst x. contradiction.
Qed.

(** What the inner loop keeps true of the terms collected so far. *)
Lemma add_synonyms_fresh (toks synonyms expanded : list string) :
  NoDup (map Str.lower expanded) ->
  (forall t, In t expanded -> ~ In (Str.lower t) (map Str.lower toks)) ->
  let out := add_synonyms max_synonyms toks expanded synonyms in
  NoDup (map Str.lower out)
  /\ (forall t, In t out -> ~ In (Str.lower t) (map Str.lower toks))
  /\ (forall t, In t out -> In t expanded \/ In t synonyms)
  /\ length out <= length expanded + length synonyms.
Proof.
  revert expanded.
  induction synonyms as [|syn rest IH]; intros expanded Hnd Hfresh; simpl.
  - repeat split; auto. lia.
  - destruct (is_new syn (toks ++ expanded)) eqn:Enew.
    + apply is_new_spec in Enew. rewrite map_app, in_app_iff in Enew.
      assert (Hnd' : NoDup (map Str.lower (expanded ++ [syn]))).
      { rewrite map_app. apply NoDup_app. split; [exact Hnd|].
        split; [|apply NoDup_singleton].
        intros x Hx Hx'. apply list_elem_of_singleton in Hx'. subst x.
        apply Enew. right. apply list_elem_of_In, Hx. }
      assert (Hfresh' : forall t, In t (expanded ++ [syn]) ->
                          ~ In (Str.lower t) (map Str.lower toks)).
      { intros t Ht. apply in_app_iff in Ht as [Ht|[<-|[]]]; [auto|].
        intros H. apply Enew. left. exact H. }
      destruct (max_synonyms * length toks <=? length (expanded ++ [syn]))%nat.
      * split; [exact Hnd'|]. split; [exact Hfresh'|]. split.
        -- intros t Ht. apply in_app_iff in Ht as [Ht|[<-|[]]]; auto.
        -- rewrite length_app. simpl. lia.
      * destruct (IH _ Hnd' Hfresh') as (H1 & H2 & H3 & H4).
        split; [exact H1|]. split; [exact H2|]. split.
        -- intros t Ht. destruct (H3 t Ht) as [Hin|Hin]; [|auto].
           apply in_app_iff in Hin as [Hin|[<-|[]]]; auto.
        -- rewrite length_app in H4. simpl in H4. lia.
    + destruct (IH _ Hnd Hfresh) as (H1 & H2 & H3 & H4).
      split; [exact H1|]. split; [exact H2|]. split.
      * intros t Ht. destruct (H3 t Ht); auto.
      * lia.
Qed.

Lemma collect_synonyms_fresh (toks : list string) (pending : list string)
    (expanded : list string) :
  NoDup (map Str.lower expanded) ->
  (forall t, In t expanded -> ~ In (Str.lower t) (map Str.lower toks)) ->
  let out :=
    fold_left (fun acc token =>
                 add_synonyms max_synonyms toks acc (get_synonyms token))
      pending expanded in
  NoDup (map Str.lower out)
  /\ (forall t, In t out -> ~ In (Str.lower t) (map Str.lower toks))
  /\ (forall t, In t out ->
        In t expanded \/ exists token, In token pending /\ In t (get_synonyms token))
  /\ ((forall token, length (get_synonyms token) <= max_synonyms) ->
      length out <= length expanded + max_synonyms * length pending).
Proof.
  revert expanded.
  induction pending as [|token pending IH]; intros expanded Hnd Hfresh; simpl.
  - repeat split; auto. intros _. lia.
  - destruct (add_synonyms_fresh toks (get_synonyms token) expanded Hnd Hfresh)
      as (H1 & H2 & H3 & H4).
    destruct (IH _ H1 H2) as (G1 & G2 & G3 & G4).
    split; [exact G1|]. split; [exact G2|]. split.
    + intros t Ht. destruct (G3 t Ht) as [Hin|(tok & Htok & Hin)].
      * destruct (H3 t Hin); eauto.
      * eauto.
    + intros Hbound. specialize (G4 Hbound). specialize (Hbound token). nia.
Qed.

(** [SynonymExpander.expand], applied to a query without expanded terms,
    always returns.  The terms it records are synonyms of query tokens,
    are pairwise different and different from every query token when
    compared in lower case, and number at most [max_synonyms] per token
    when [get_synonyms] returns at most [max_synonyms] terms; the text is
    the old text followed by a blank and the terms, or the old text when
    there is none. *)
Theorem synonym_expand_terms (query : Query) :
  expanded_terms query = [] ->
  exists query',
    synonym_expand preprocess get_synonyms max_synonyms query = Ok query'
    /\ NoDup (map Str.lower (expanded_terms query'))
    /\ (forall t, In t (expanded_terms query') ->
          ~ In (Str.lower t) (map Str.lower (preprocess (text query)))
          /\ exists token,
               In token (preprocess (text query))
               /\ In t (get_synonyms token))
    /\ ((forall token, length (get_synonyms token) <= max_synonyms) ->
        length (expanded_terms query')
        <= max_synonyms * length (preprocess (text query)))
    /\ text query'
       = match expanded_terms query' with
         | [] => text query
         | terms => (text query ++ " " ++ Str.join terms)%string
         end.
Proof.
  intros Hempty. unfold synonym_expand.
  destruct (collect_synonyms_fresh (preprocess (text query))
              (preprocess (text query)) [])
    as (H1 & H2 & H3 & H4); [constructor | intros t [] |].
  cbv zeta in H1, H2, H3, H4.
  set (terms := fold_left _ (preprocess (text query)) []) in *.
  assert (Hgoal : forall q' : Query,
    expanded_terms q' = terms ->
    text q' = match terms with
              | [] => text query
              | ts => (text query ++ " " ++ Str.join ts)%string
              end ->
    NoDup (map Str.lower (expanded_terms q'))
    /\ (forall t, In t (expanded_terms q') ->
          ~ In (Str.lower t) (map Str.lower (preprocess (text query)))
          /\ exists token,
               In token (preprocess (text query))
               /\ In t (get_synonyms token))
    /\ ((forall token, length (get_synonyms token) <= max_synonyms) ->
        length (expanded_terms q')
        <= max_synonyms * length (preprocess (text query)))
    /\ text q'
       = match expanded_terms q' with
         | [] => text query
         | ts => (text query ++ " " ++ Str.join ts)%string
         end).
  { intros q' -> Htext. split; [exact H1|]. split.
    - intros t Ht. split; [apply H2, Ht|].
      destruct (H3 t Ht) as [[]|H]. exact H.
    - split; [intros Hb; specialize (H4 Hb); simpl in H4; lia|].
      rewrite Htext. destruct terms; reflexivity. }
  destruct terms as [|t0 ts] eqn:Eterms.
  - exists query. split; [reflexivity|]. apply Hgoal; auto.
  - eexists. split; [reflexivity|]. apply Hgoal; reflexivity.
Qed.

End SynonymFacts.

Lemma synonym_expand_terms_witness :
  exists query',
    HybridFixtures.synonym_expander (Models.new_Query "car" 10 0%Q ∅)
    = Ok query'
    /\ NoDup (map Str.lower (Models.expanded_terms query')).
Proof.
  destruct (synonym_expand_terms
              (fun text =>
                 fst (Preprocessing.query_preprocess TextFixtures.plain_nltk
                        TextFixtures.query_preprocessor text))
              HybridFixtures.thesaurus 3
              (Models.new_Query "car" 10 0%Q ∅) eq_refl)
    as (query' & Hq & Hnd & _).
  exists query'. split; assumption.
Defined.

Section ExpanderFacts.

Import Models Expansion Hybrid.

Context (list_of_set : list string -> list string)
        (bm25_search semantic_search : Query -> list SearchResult).

Lemma run_expanders_text (original_text : string)
    (strategies : list (Query -> outcome Query)) (query query' : Query)
    (terms terms' : list string) :
  run_expanders original_text strategies query terms = Ok (query', terms') ->
  text query = original_text -> text query' = original_text.
Proof.
  revert query terms.
  induction strategies as [|expander rest IH]; intros query terms; simpl.
  - intros [= <- <-] H. exact H.
  - destruct (expander query) as [expanded_query|e]; simpl; [|discriminate].
    intros Hrun _. apply (IH _ _ Hrun). reflexivity.
Qed.

(** [QueryExpander.expand] returns the query untouched when expansion is
    disabled.  When it returns for a query without expanded terms, either
    no term was found, and the text is the text given, or the text is the
    text given followed by a blank and the recorded terms, joined by
    blanks: what the strategies wrote into the text is discarded.  Of
    [list(set(terms))] this uses one fact only: it is not empty when
    [terms] is not. *)
Theorem expand_outcome (self : QueryExpander) (query : Query) :
  (forall terms, terms <> [] -> list_of_set terms <> []) ->
  (enabled self = false -> expand list_of_set self query = Ok query)
  /\ forall query',
       expand list_of_set self query = Ok query' ->
       expanded_terms query = [] ->
       (expanded_terms query' = [] /\ text query' = text query)
       \/ (expanded_terms query' <> []
           /\ text query'
              = (text query ++ " " ++ Str.join (expanded_terms query'))%string).
Proof.
  intros Hset. split.
  - intros Hoff. unfold expand. rewrite Hoff. reflexivity.
  - intros query' Hexp Hempty.
    destruct (expanded_terms query') as [|t ts] eqn:Eterms.
    + left. split; [reflexivity|]. revert Hexp. unfold expand.
      destruct (enabled self); simpl; [|intros [= <-]; reflexivity].
      destruct (run_expanders (text query) (expanders self) query [])
        as [[q1 terms]|e] eqn:Hrun; simpl; [|discriminate].
      destruct terms as [|t0 terms].
      * intros [= <-]. apply (run_expanders_text _ _ _ _ _ _ Hrun eq_refl).
      * intros [= <-]. simpl in Eterms. exfalso.
        apply (Hset (t0 :: terms)); [discriminate | exact Eterms].
    + right. split; [discriminate|]. rewrite <- Eterms.
      apply (expand_rewrites_text list_of_set self query query' Hexp Hempty).
      rewrite Eterms. discriminate.
Qed.

(** Once a non-empty vocabulary has been set, [EmbeddingExpander.expand]
    raises [AttributeError] for every query (it reads [self.preprocessor],
    which no method assigns); so does [QueryExpander.expand] with the
    synonym and embedding strategies, and so does every search of an
    indexed engine that uses this expander, before any engine is
    called. *)
Theorem embedding_expander_raises (model_encode : string -> vector)
    (e : EmbeddingExpander) (generator : Semantic.EmbeddingGenerator)
    (vocab : list string) (preprocess : string -> list string)
    (get_synonyms : string -> list string) (max_synonyms : nat)
    (fusion : ResultFusion.ResultFusion) (query : Query) :
  vocab <> [] ->
  let e' := fst (set_vocabulary model_encode e generator vocab) in
  let expander :=
    mkQueryExpander true
      [synonym_expand preprocess get_synonyms max_synonyms;
       embedding_expand e'] in
  embedding_expand e' query = Raise AttributeError
  /\ expand list_of_set expander query = Raise AttributeError
  /\ search list_of_set bm25_search semantic_search
       (mkHybridSearch expander fusion true)
       (text query) (k query) (min_score query) (Some (filters query))
     = (Raise AttributeError, []).
Proof.
  intros Hne e' expander.
  assert (Hraise : forall q, embedding_expand e' q = Raise AttributeError).
  { intros q. subst e'. unfold set_vocabulary.
    destruct vocab as [|v vocab]; [contradiction|].
    destruct (Semantic.encode_batch _ _ _) as [[embeddings g] calls].
    reflexivity. }
  assert (Hexpand : forall q, expand list_of_set expander q
                              = Raise AttributeError).
  { intros q. unfold expand, expander. simpl.
    destruct (synonym_expand preprocess get_synonyms max_synonyms q)
      as [q1|err] eqn:Esyn.
    - simpl. rewrite Hraise. reflexivity.
    - unfold synonym_expand in Esyn. destruct (fold_left _ _ _); discriminate. }
  split; [apply Hraise|]. split; [apply Hexpand|].
  unfold search. simpl. rewrite Hexpand. reflexivity.
Qed.

Lemma matches_spec (doc : Document) (fs : gmap string string) :
  matches doc fs = true <-> fs ⊆ metadata doc.
Proof.
  unfold matches. rewrite forallb_forall, map_subseteq_spec. split.
  - intros H key v Hkv.
    specialize (H (key, v)). simpl in H.
    eapply bool_decide_eq_true_1. apply H.
    apply list_elem_of_In, elem_of_map_to_list, Hkv.
  - intros H [key v] Hin. simpl. apply bool_decide_eq_true_2.
    apply H. apply elem_of_map_to_list, list_elem_of_In, Hin.
Qed.

(** [_apply_filters] keeps exactly the results whose document metadata
    contains every filter entry (same key, equal value), and never adds
    one. *)
Theorem apply_filters_spec (results : list SearchResult)
    (fs : gmap string string) :
  length (_apply_filters results fs) <= length results
  /\ forall r,
       In r (_apply_filters results fs)
       <-> In r results /\ fs ⊆ metadata (document r).
Proof.
  unfold _apply_filters. split.
  - apply List.filter_length_le.
  - intros r. rewrite List.filter_In, matches_spec. reflexivity.
Qed.

Lemma apply_filters_member (results : list SearchResult)
    (fs : gmap string string) (r : SearchResult) :
  In r (_apply_filters results fs) -> fs ⊆ metadata (document r).
Proof.
  unfold _apply_filters. rewrite List.filter_In, matches_spec. tauto.
Qed.

(** When a hybrid search returns, it returns at most [k] results, and the
    metadata of each returned document contains every filter entry. *)
Theorem search_results_bounded (self : HybridSearch) (query_text : string)
    (k : nat) (min_score : Q) (filters : option (gmap string string))
    (out : list SearchResult) :
  fst (search list_of_set bm25_search semantic_search self
         query_text k min_score filters) = Ok out ->
  length out <= k
  /\ Forall (fun r => default ∅ filters ⊆ metadata (document r)) out.
Proof.
  unfold search. destruct (is_indexed self); simpl.
  - destruct (expand list_of_set _ _) as [query|e]; simpl; [|discriminate].
    destruct (expanded_terms query);
      (destruct (ResultFusion.fuse _ _) as [fused|e]; simpl; [|discriminate];
       intros [= <-]; split; [rewrite length_take; lia|];
       apply List.Forall_forall; intros r Hr;
       apply list_elem_of_In, elem_of_take in Hr as (i & Hr & _);
       apply list_elem_of_lookup_2, list_elem_of_In in Hr;
       case_bool_decide as Hfs;
       [ rewrite Hfs; apply map_empty_subseteq
       | apply apply_filters_member in Hr; exact Hr ]).
  - intros [= <-]. split; [simpl; lia | constructor].
Qed.

End ExpanderFacts.

Section SearchFacts.

Import Models Expansion Hybrid.

Context (list_of_set : list string -> list string)
        (bm25_search semantic_search : Query -> list SearchResult).


(** When the expansion of a query records at least one term, both lexical
    searches of the hybrid search receive the same text, the expanded
    one, and the text as typed is never searched. *)
Theorem expanded_search_uses_expanded_text (self : HybridSearch)
    (query_text : string) (k : nat) (min_score : Q)
    (filters : option (gmap string string)) (query' : Query) :
  is_indexed self = true ->
  expand list_of_set (query_expander self)
    (new_Query query_text k min_score (default ∅ filters)) = Ok query' ->
  expanded_terms query' <> [] ->
  bm25_inputs
    (snd (search list_of_set bm25_search semantic_search self
            query_text k min_score filters))
  = [text query'; text query']
  /\ text query' <> query_text.
Proof. apply search_bm25_inputs. Qed.

End SearchFacts.

Lemma expand_outcome_witness :
  let query := Models.new_Query "car" 10 0%Q ∅ in
  Expansion.expand HybridFixtures.first_occurrences
    (Expansion.mkQueryExpander false [HybridFixtures.synonym_expander]) query
  = Ok query
  /\ exists query',
       Expansion.expand HybridFixtures.first_occurrences
         (Expansion.mkQueryExpander true [HybridFixtures.synonym_expander])
         query
       = Ok query'
       /\ Models.expanded_terms query = []
       /\ Models.expanded_terms query' = ["auto"]%string
       /\ Models.text query'
          = (Models.text query ++ " "
             ++ Str.join (Models.expanded_terms query'))%string
       /\ Models.text query' = "car auto"%string.
Proof.
  intros query.
  assert (Hset : forall terms : list string,
            terms <> [] -> HybridFixtures.first_occurrences terms <> []).
  { intros [|t ts] Hne; [contradiction|].
    unfold HybridFixtures.first_occurrences. intros Hnil.
    assert (Hin : t ∈ remove_dups (t :: ts))
      by (apply elem_of_remove_dups; left).
    rewrite Hnil in Hin. apply elem_of_nil in Hin. exact Hin. }
  split.
  - apply (expand_outcome HybridFixtures.first_occurrences _ query Hset).
    reflexivity.
  - eexists. split; [reflexivity|].
    split; [reflexivity|]. split; [reflexivity|]. split; [|reflexivity].
    destruct (proj2 (expand_outcome HybridFixtures.first_occurrences
                       (Expansion.mkQueryExpander true
                          [HybridFixtures.synonym_expander])
                       query Hset) _ eq_refl eq_refl)
      as [[Hnone _]|[_ Htext]].
    + discriminate Hnone.
    + exact Htext.
Defined.

Lemma embedding_expander_raises_witness :
  Expansion.embedding_expand
    (fst (Expansion.set_vocabulary SemanticFixtures.toy_model
            (Expansion.new_embedding_expander 2 (7 # 10))
            (Semantic.new_generator 1 true) ["cat"%string]))
    (Models.new_Query "car" 10 0%Q ∅)
  = Raise AttributeError.
Proof.
  apply (embedding_expander_raises HybridFixtures.first_occurrences
           HybridFixtures.bm25_stub HybridFixtures.semantic_stub
           SemanticFixtures.toy_model
           (Expansion.new_embedding_expander 2 (7 # 10))
           (Semantic.new_generator 1 true) ["cat"%string]
           (fun text => [text]) HybridFixtures.thesaurus 3
           (ResultFusion.__init__ ResultFusion.empty_config)
           (Models.new_Query "car" 10 0%Q ∅)).
  discriminate.
Defined.

Lemma search_results_bounded_witness :
  exists out,
    fst (Hybrid.search HybridFixtures.first_occurrences
           HybridFixtures.bm25_stub HybridFixtures.semantic_stub
           HybridFixtures.rrf_engine "car" 2 0%Q None) = Ok out
    /\ length out <= 2.
Proof.
  eexists. split; [reflexivity|].
  apply (search_results_bounded HybridFixtures.first_occurrences
           HybridFixtures.bm25_stub HybridFixtures.semantic_stub
           HybridFixtures.rrf_engine "car" 2 0%Q None _ eq_refl).
Defined.


Lemma expanded_search_uses_expanded_text_witness :
  exists expanded_text,
    Hybrid.bm25_inputs
      (snd (Hybrid.search HybridFixtures.first_occurrences
              HybridFixtures.bm25_stub HybridFixtures.semantic_stub
              HybridFixtures.indexed_engine "car" 10 0%Q None))
    = [expanded_text; expanded_text]
    /\ expanded_text <> "car"%string.
Proof.
  eexists.
  eapply (expanded_search_uses_expanded_text HybridFixtures.first_occurrences
            HybridFixtures.bm25_stub HybridFixtures.semantic_stub
            HybridFixtures.indexed_engine "car" 10 0%Q None);
    [reflexivity | reflexivity | discriminate].
Defined.

Section SemanticSearchFacts.

Import Models Semantic.
Local Open Scope Q_scope.

Context (model_encode : string -> vector)
        (faiss_search : VectorIndex -> vector -> nat -> list (Q * Z))
        (sort_reverse : list SearchResult -> list SearchResult).

Lemma py_index_elem {A : Type} (l : list A) (idx : Z) (x : A) :
  py_index l idx = Some x -> In x l.
Proof.
  unfold py_index. destruct (0 <=? idx)%Z.
  - intros H. eapply list_elem_of_In, list_elem_of_lookup_2, H.
  - destruct (- Z.of_nat (length l) <=? idx)%Z; [|discriminate].
    intros H. eapply list_elem_of_In, list_elem_of_lookup_2, H.
Qed.

Lemma similarity_range (d : Q) :
  0 <= d -> 0 < 1 / (1 + d) /\ 1 / (1 + d) <= 1.
Proof.
  intros Hd.
  assert (Hpos : 0 < 1 + d).
  { apply Qlt_le_trans with (1 + 0); [reflexivity|].
    apply Qplus_le_r. exact Hd. }
  split.
  - unfold Qdiv. rewrite Qmult_1_l. apply Qinv_lt_0_compat, Hpos.
  - apply Qle_shift_div_r; [exact Hpos|]. rewrite Qmult_1_l.
    apply Qle_trans with (1 + 0); [discriminate|].
    apply Qplus_le_r. exact Hd.
Qed.

Lemma py_index_in_range {A : Type} (l : list A) (idx : Z) :
  (0 <= idx < Z.of_nat (length l))%Z -> is_Some (py_index l idx).
Proof.
  intros [Hlo Hhi]. unfold py_index.
  destruct (0 <=? idx)%Z eqn:E; [|apply Z.leb_gt in E; lia].
  apply lookup_lt_is_Some. lia.
Qed.

(** Every result of the loop is built from one of the neighbours and
    passes the threshold. *)
Lemma collect_results (self : SemanticSearcher) (query : Query)
    (hits : list (Q * Z)) (results : list SearchResult) :
  collect self query hits = Found results ->
  Forall (fun r =>
            min_score query <= score r
            /\ exists hit, In hit hits /\ built_from self r hit)
    results.
Proof.
  revert results. induction hits as [|[d idx] hits IH]; intros results; simpl.
  - intros [= <-]. constructor.
  - assert (Hweaken : forall rs,
      Forall (fun r =>
                min_score query <= score r
                /\ exists hit, In hit hits /\ built_from self r hit) rs ->
      Forall (fun r =>
                min_score query <= score r
                /\ exists hit,
                     ((d, idx) = hit \/ In hit hits)
                     /\ built_from self r hit) rs).
    { intros rs. apply List.Forall_impl.
      intros r (H1 & hit & Hin & Hb). split; [exact H1|].
      exists hit. auto. }
    destruct (idx =? -1)%Z eqn:Eidx; [intros H; apply Hweaken, IH, H|].
    apply Z.eqb_neq in Eidx.
    destruct (py_index (doc_ids (vector_index self)) idx) as [doc_id|] eqn:Epy;
      [|discriminate].
    destruct (documents self !! doc_id) as [doc|] eqn:Edoc;
      [|intros H; apply Hweaken, IH, H].
    destruct (Qeq_bool (1 + d) 0); [discriminate|].
    destruct (Qle_bool (min_score query) (1 / (1 + d))) eqn:Emin;
      [|intros H; apply Hweaken, IH, H].
    destruct (collect self query hits) as [rs| |]; try discriminate.
    intros [= <-]. constructor; [|apply Hweaken, IH; reflexivity].
    simpl. split; [apply Qle_bool_iff, Emin|].
    exists (d, idx). split; [left; reflexivity|].
    unfold built_from. simpl. split; [exact Eidx|].
    split; [exists doc_id; auto|]. auto.
Qed.

(** No neighbour that passes the threshold is lost, and no result is made
    up: there are at most as many results as neighbours. *)
Lemma collect_complete (self : SemanticSearcher) (query : Query)
    (hits : list (Q * Z)) (results : list SearchResult) :
  collect self query hits = Found results ->
  (length results <= length hits)%nat
  /\ forall d idx doc_id doc,
       In (d, idx) hits -> idx <> (-1)%Z ->
       py_index (doc_ids (vector_index self)) idx = Some doc_id ->
       documents self !! doc_id = Some doc ->
       min_score query <= 1 / (1 + d) ->
       exists r, In r results /\ document r = doc /\ score r = 1 / (1 + d).
Proof.
  revert results. induction hits as [|[d0 idx0] hits IH]; intros results; simpl.
  - intros [= <-]. split; [reflexivity|]. intros d idx doc_id doc [].
  - assert (Hskip :
      collect self query hits = Found results ->
      (idx0 = (-1)%Z
       \/ (exists doc_id,
             py_index (doc_ids (vector_index self)) idx0 = Some doc_id
             /\ (documents self !! doc_id = None
                 \/ Qle_bool (min_score query) (1 / (1 + d0)) = false))) ->
      (length results <= S (length hits))%nat
      /\ forall d idx doc_id doc,
           (d0, idx0) = (d, idx) \/ In (d, idx) hits -> idx <> (-1)%Z ->
           py_index (doc_ids (vector_index self)) idx = Some doc_id ->
           documents self !! doc_id = Some doc ->
           min_score query <= 1 / (1 + d) ->
           exists r, In r results /\ document r = doc
                     /\ score r = 1 / (1 + d)).
    { intros H Hwhy. destruct (IH _ H) as [Hlen Hall]. split; [lia|].
      intros d idx doc_id doc [[= <- <-]|Hin] Hne Hpy Hdoc Hmin.
      - exfalso. destruct Hwhy as [->|(doc_id0 & Hpy0 & [Hnone|Hlow])].
        + contradiction.
        + rewrite Hpy in Hpy0. injection Hpy0 as <-. congruence.
        + apply Qle_bool_iff in Hmin. congruence.
      - eapply Hall; eauto. }
    destruct (idx0 =? -1)%Z eqn:Eidx.
    { apply Z.eqb_eq in Eidx. intros H. apply Hskip; auto. }
    apply Z.eqb_neq in Eidx.
    destruct (py_index (doc_ids (vector_index self)) idx0) as [doc_id0|]
      eqn:Epy; [|discriminate].
    destruct (documents self !! doc_id0) as [doc0|] eqn:Edoc.
    2:{ intros H. apply Hskip; eauto. }
    destruct (Qeq_bool (1 + d0) 0); [discriminate|].
    destruct (Qle_bool (min_score query) (1 / (1 + d0))) eqn:Emin.
    2:{ intros H. apply Hskip; eauto. }
    destruct (collect self query hits) as [rs| |]; try discriminate.
    intros [= <-]. destruct (IH _ eq_refl) as [Hlen Hall].
    split; [simpl; lia|].
    intros d idx doc_id doc [[= <- <-]|Hin] Hne Hpy Hdoc Hmin.
    + rewrite Hpy in Epy. injection Epy as ->.
      rewrite Hdoc in Edoc. injection Edoc as ->.
      eexists. split; [left; reflexivity|]. split; reflexivity.
    + destruct (Hall d idx doc_id doc Hin Hne Hpy Hdoc Hmin)
        as (r & Hr & Hrest).
      exists r. split; [right; exact Hr | exact Hrest].
Qed.

(** The loop returns when every neighbour has a distance that is not
    negative and a row that is [-1] or a position of [doc_ids]. *)
Lemma collect_found (self : SemanticSearcher) (query : Query)
    (hits : list (Q * Z)) :
  Forall (fun hit =>
            0 <= fst hit
            /\ (snd hit = (-1)%Z
                \/ (0 <= snd hit
                    < Z.of_nat (length (doc_ids (vector_index self))))%Z))
    hits ->
  exists results, collect self query hits = Found results.
Proof.
  induction 1 as [|[d idx] hits [Hd Hidx] _ [rs IH]]; simpl.
  - eauto.
  - simpl in Hd, Hidx. rewrite IH.
    destruct (idx =? -1)%Z eqn:Eidx; [eauto|].
    apply Z.eqb_neq in Eidx. destruct Hidx as [Hidx|Hidx]; [contradiction|].
    destruct (py_index_in_range _ _ Hidx) as [doc_id ->].
    destruct (documents self !! doc_id); [|eauto].
    destruct (Qeq_bool (1 + d) 0) eqn:Ez.
    + exfalso. apply Qeq_bool_iff in Ez.
      assert (Hpos : 0 < 1 + d).
      { apply Qlt_le_trans with (1 + 0); [reflexivity|].
        apply Qplus_le_r. exact Hd. }
      rewrite Ez in Hpos. exact (Qlt_irrefl _ Hpos).
    + destruct (Qle_bool _ _); eauto.
Qed.

(** A semantic search over an empty vector index returns nothing, sends
    nothing to the model and leaves the searcher as it is.  Otherwise let
    the neighbours be the (distance, row) pairs the vector index finds for
    the embedding of the query text, [k] being cut at the number of
    indexed ids.  The search returns when every neighbour has a distance
    that is not negative and a row that is [-1] or a position of the id
    list.  Whenever it returns, in whatever order the results are sorted:
    every result is built from one of the neighbours (a row other than
    [-1], the document stored under the id at that row, with score and
    [semantic_score] equal to [1 / (1 + distance)], the other component
    scores being 0), its score is at least [min_score], and lies in
    (0, 1] when the distance is not negative; every neighbour with a
    stored document and a similarity of at least [min_score] has a result;
    and there are no more results than neighbours. *)
Theorem semantic_search_results (self : SemanticSearcher) (query : Query) :
  (forall l, Permutation (sort_reverse l) l) ->
  let query_embedding :=
    fst (fst (encode model_encode (embedding_generator self) (text query))) in
  let hits :=
    vector_search faiss_search (vector_index self) query_embedding
      (Nat.min (k query) (length (doc_ids (vector_index self)))) in
  let outcome :=
    fst (fst (search model_encode faiss_search sort_reverse self query)) in
  (doc_ids (vector_index self) = [] ->
   search model_encode faiss_search sort_reverse self query
   = (Found [], self, []))
  /\ (Forall (fun hit =>
                0 <= fst hit
                /\ (snd hit = (-1)%Z
                    \/ (0 <= snd hit
                        < Z.of_nat (length (doc_ids (vector_index self))))%Z))
        hits ->
      exists out, outcome = Found out)
  /\ forall out,
       outcome = Found out ->
       Forall (fun r =>
                 min_score query <= score r
                 /\ (exists doc_id,
                       In doc_id (doc_ids (vector_index self))
                       /\ documents self !! doc_id = Some (document r))
                 /\ exists hit,
                      In hit hits /\ built_from self r hit
                      /\ (0 <= fst hit -> 0 < score r /\ score r <= 1))
         out
       /\ (forall d idx doc_id doc,
             In (d, idx) hits -> idx <> (-1)%Z ->
             py_index (doc_ids (vector_index self)) idx = Some doc_id ->
             documents self !! doc_id = Some doc ->
             min_score query <= 1 / (1 + d) ->
             exists r, In r out /\ document r = doc
                       /\ score r = 1 / (1 + d))
       /\ (length out <= length hits)%nat.
Proof.
  intros Hperm query_embedding hits outcome.
  split; [unfold search; intros ->; reflexivity|].
  destruct (decide (doc_ids (vector_index self) = [])) as [Hnil|Hne].
  { assert (Hout : outcome = Found []).
    { subst outcome. unfold search. rewrite Hnil. reflexivity. }
    assert (Hhits : hits = []).
    { subst hits. unfold vector_search. rewrite Hnil. reflexivity. }
    rewrite Hout, Hhits. split; [eauto|]. intros out [= <-].
    split; [constructor|]. split; [|reflexivity].
    intros d idx doc_id doc []. }
  assert (Hout : outcome
                 = match collect self query hits with
                   | Found results => Found (sort_reverse results)
                   | raised => raised
                   end).
  { subst outcome hits query_embedding. unfold search.
    destruct (doc_ids (vector_index self)); [contradiction|].
    destruct (encode model_encode (embedding_generator self) (text query))
      as [[qe g] calls]. reflexivity. }
  rewrite Hout. clear Hout. split.
  - intros Hok. destruct (collect_found self query _ Hok) as [rs ->]. eauto.
  - intros out.
    destruct (collect self query hits) as [rs| |] eqn:Ecol; try discriminate.
    intros [= <-].
    pose proof (collect_results _ _ _ _ Ecol) as Hres.
    destruct (collect_complete _ _ _ _ Ecol) as [Hlen Hall].
    split; [|split].
    + apply List.Forall_forall. intros r Hr.
      apply (Permutation_in _ (Hperm rs)) in Hr.
      rewrite List.Forall_forall in Hres.
      destruct (Hres r Hr) as (Hmin & hit & Hin & Hb).
      split; [exact Hmin|]. split.
      * destruct Hb as (_ & (doc_id & Hpy & Hdoc) & _).
        exists doc_id. split; [|exact Hdoc].
        eapply py_index_elem, Hpy.
      * exists hit. split; [exact Hin|]. split; [exact Hb|].
        intros Hd. destruct Hb as (_ & _ & -> & _).
        apply similarity_range, Hd.
    + intros d idx doc_id doc Hin Hne' Hpy Hdoc Hmin.
      destruct (Hall d idx doc_id doc Hin Hne' Hpy Hdoc Hmin)
        as (r & Hr & Hrest).
      exists r. split; [|exact Hrest].
      apply (Permutation_in _ (Permutation_sym (Hperm rs))), Hr.
    + rewrite (Permutation_length (Hperm rs)). exact Hlen.
Qed.

End SemanticSearchFacts.

Lemma semantic_search_results_witness :
  let query := Models.new_Query "cat" 10 (1 # 4)%Q ∅ in
  exists out,
    fst (fst (Semantic.search SemanticFixtures.toy_model
                SemanticFixtures.exact_search TextFixtures.by_score
                SemanticFixtures.zoo_index query))
    = Semantic.Found out
    /\ ResultFusion.ranking out = ["1"; "3"]%string
    /\ Forall (fun r =>
                 (Models.min_score query <= Models.score r)%Q
                 /\ exists hit,
                      In hit [(0, 0%Z); (1, 2%Z); (4, 1%Z)]%Q
                      /\ Semantic.built_from SemanticFixtures.zoo_index r hit)
         out
    /\ exists r,
         In r out
         /\ Models.id (Models.document r) = "3"%string
         /\ (Models.score r == 1 # 2)%Q.
Proof.
  intros query.
  destruct (semantic_search_results SemanticFixtures.toy_model
              SemanticFixtures.exact_search TextFixtures.by_score
              SemanticFixtures.zoo_index query)
    as (_ & Hreturns & Hout).
  { intros l. apply sort_desc_perm. }
  destruct Hreturns as [out Hfound].
  { repeat constructor; simpl; try discriminate; right; lia. }
  exists out. split; [exact Hfound|].
  destruct (Hout out Hfound) as (Hsound & Hcomplete & _).
  assert (Hval : Semantic.Found out
                 = fst (fst (Semantic.search SemanticFixtures.toy_model
                               SemanticFixtures.exact_search
                               TextFixtures.by_score
                               SemanticFixtures.zoo_index query)))
    by (symmetry; exact Hfound).
  vm_compute in Hval. injection Hval as ->.
  split; [reflexivity|]. split.
  - eapply List.Forall_impl; [|exact Hsound].
    intros r (Hmin & _ & hit & Hin & Hb & _). split; [exact Hmin|].
    exists hit. split; [|exact Hb].
    vm_compute in Hin. vm_compute. exact Hin.
  - destruct (Hcomplete 1%Q 2%Z "3"%string
                (Semantic.set_embedding (Models.new_Document "3" "ox") [2%Q]))
      as (r & Hr & Hdoc & Hscore).
    + vm_compute. auto.
    + discriminate.
    + reflexivity.
    + reflexivity.
    + vm_compute. discriminate.
    + exists r. split; [exact Hr|]. split; [rewrite Hdoc; reflexivity|].
      rewrite Hscore. reflexivity.
Defined.
